(** * A shallow embedding of github.com/kenshaw/diskcache

    Byte buffers ([]byte, string) are Rocq [string]s: an [ascii] is an
    8-bit byte.  Go [int] and [time.Duration] values are [Z]; instants
    ([time.Time]) are nanoseconds as [Z].  Errors are values of [error]. *)

From Stdlib Require Import String Ascii List Bool ZArith Lia.
From Stdlib Require Import Sorting.Sorted Sorting.Permutation.
From Stdlib Require Structures.OrderedTypeEx.
Import ListNotations.
Open Scope string_scope.

(* ------------------------------------------------------------------ *)
(** ** Results and errors *)

Inductive error : Type :=
  | ENotExist (path : string)          (* wraps fs.ErrNotExist *)
  | EIsDir (path : string)             (* "fs path %q is a directory" *)
  | EBoundary                          (* "unable to find header/body boundary" *)
  | ECompressLevel (level : Z)         (* gzip/zlib NewWriterLevel *)
  | EUnexpectedEOF                     (* io.ErrUnexpectedEOF *)
  | EMalformed (what : string)         (* http.ReadResponse *)
  | EValidityError                     (* "%T returned no error, but returned Error validity" *)
  | EValidityUnknown (v : Z)           (* "unable to handle %T validity %d" *)
  | EMissingPrefix (prefix : string)  (* PrefixStripper: "missing prefix %q" *)
  | EOther (msg : string).

Inductive result (A : Type) : Type :=
  | Ok (a : A)
  | Err (e : error).
Arguments Ok {A} a.
Arguments Err {A} e.

(** errors.Is(err, fs.ErrNotExist) *)
Definition is_not_exist (e : error) : bool :=
  match e with ENotExist _ => true | _ => false end.

(* ------------------------------------------------------------------ *)
(** ** Byte-string helpers *)

Definition CR : ascii := "013"%char.
Definition LF : ascii := "010"%char.

(** crlf = []byte("\r\n"), crlfcrlf = []byte("\r\n\r\n") *)
Definition crlf : string := String CR (String LF EmptyString).
Definition crlfcrlf : string := crlf ++ crlf.

(** httpHeader = []byte("HTTP/1.1 200 OK\r\n\r\n") *)
Definition httpHeader : string := "HTTP/1.1 200 OK" ++ crlfcrlf.

(** s[i:] *)
Definition drop (i : nat) (s : string) : string :=
  substring i (String.length s - i) s.

(** s[:i] *)
Definition take (i : nat) (s : string) : string := substring 0 i s.

(** bytes.Index(s, sep), -1 as [None]. *)
Definition bytes_index (sep s : string) : option nat := index 0 sep s.

(** strings.HasSuffix *)
Definition has_suffix (suf s : string) : bool :=
  (String.length suf <=? String.length s)%nat
  && String.eqb (drop (String.length s - String.length suf) s) suf.

(** strings.TrimSuffix *)
Definition trim_suffix (suf s : string) : string :=
  if has_suffix suf s then take (String.length s - String.length suf) s else s.

(** ASCII lower-casing, as strings.ToLower on the ASCII range. *)
Definition ascii_lower (c : ascii) : ascii :=
  let n := nat_of_ascii c in
  if ((65 <=? n) && (n <=? 90))%nat then ascii_of_nat (n + 32) else c.

Fixpoint to_lower (s : string) : string :=
  match s with
  | EmptyString => EmptyString
  | String c s' => String (ascii_lower c) (to_lower s')
  end.

(* ------------------------------------------------------------------ *)
(** ** Go regexp, on the fragment the header regexps use

    [compileHeaderRegexps] builds `(?i)\r\n` + name + `:.+?\r\n` by string
    concatenation and hands it to regexp.Compile.  The model parses the
    fragment made of an optional leading `(?i)`, literal characters, the
    escapes `\r`, `\n`, `\t` and escaped punctuation, `.`, the repetition
    operators `+` and `+?`, and top-level alternation `|`; any other
    syntax is outside the fragment and yields [None].  Matching follows
    Go's leftmost-first semantics by backtracking in priority order, over
    ASCII input (one byte per rune). *)

Inductive regex : Type :=
  | REps
  | RChar (c : ascii) (fold : bool)
  | RAnyNL
  | RCat (r1 r2 : regex)
  | RAlt (r1 r2 : regex)
  | RPlus (r : regex) (lazy : bool).

Definition char_match (fold : bool) (c x : ascii) : bool :=
  if fold then Ascii.eqb (ascii_lower c) (ascii_lower x) else Ascii.eqb c x.

(** [mt r s k]: the first (in priority order) way of matching [r] on a
    prefix of [s] whose remainder the continuation [k] accepts. *)
Fixpoint mt (r : regex) (s : string) (k : string -> option string)
  {struct r} : option string :=
  match r with
  | REps => k s
  | RChar c fold =>
      match s with
      | String x s' => if char_match fold c x then k s' else None
      | EmptyString => None
      end
  | RAnyNL =>
      match s with
      | String x s' => if Ascii.eqb x LF then None else k s'
      | EmptyString => None
      end
  | RCat r1 r2 => mt r1 s (fun s1 => mt r2 s1 k)
  | RAlt r1 r2 =>
      match mt r1 s k with
      | Some t => Some t
      | None => mt r2 s k
      end
  | RPlus r0 lazy =>
      (fix go (n : nat) (s0 : string) {struct n} : option string :=
         match n with
         | O => None
         | S n' =>
             mt r0 s0 (fun s1 =>
               if lazy then
                 match k s1 with Some t => Some t | None => go n' s1 end
               else
                 match go n' s1 with Some t => Some t | None => k s1 end)
         end) (S (String.length s)) s
  end.

(** Leftmost match starting at or after [i]: (a[0], a[1]). *)
Fixpoint find_from (r : regex) (s : string) (i n : nat) : option (nat * nat) :=
  match n with
  | O => None
  | S n' =>
      match mt r (drop i s) Some with
      | Some rest => Some (i, String.length s - String.length rest)
      | None => find_from r s (S i) n'
      end
  end.

Definition re_find (r : regex) (s : string) (pos : nat) : option (nat * nat) :=
  find_from r s pos (S (String.length s - pos)).

(** Regexp.Match *)
Definition re_match (r : regex) (s : string) : bool :=
  match re_find r s 0 with Some _ => true | None => false end.

(** Regexp.ReplaceAll with a replacement containing no `$`: the loop of
    regexp.replaceAll (searchPos, lastMatchEnd), advancing one byte past
    an empty match.  [n] bounds the iterations; each one moves [search]
    forward, so [S (S (length s))] is never exhausted. *)
Fixpoint ra_loop (r : regex) (s repl : string) (n search last : nat)
  (dst : string) : string :=
  match n with
  | O => dst ++ drop last s
  | S n' =>
      if (search <=? String.length s)%nat then
        match re_find r s search with
        | None => dst ++ drop last s
        | Some (a0, a1) =>
            let dst1 := dst ++ substring last (a0 - last) s in
            let dst2 := if ((last <? a1)%nat || (a0 =? 0)%nat) then dst1 ++ repl
                        else dst1 in
            let width := if (search <? String.length s)%nat then 1%nat else 0%nat in
            let search' :=
              if (a1 <? search + width)%nat then (search + width)%nat
              else if (a1 <? search + 1)%nat then S search
              else a1 in
            ra_loop r s repl n' search' a1 dst2
        end
      else dst ++ drop last s
  end.

Definition replace_all (r : regex) (s repl : string) : string :=
  ra_loop r s repl (S (S (String.length s))) 0 0 EmptyString.

(** Tokens of the pattern fragment. *)
Inductive tok : Type :=
  | TAtom (r : regex)
  | TPlus (lazy : bool)
  | TBar.

Definition is_meta (c : ascii) : bool :=
  existsb (Ascii.eqb c) ["("; ")"; "["; "]"; "{"; "}"; "^"; "$"; "*"; "?"]%char.

Definition is_alnum (c : ascii) : bool :=
  let n := nat_of_ascii c in
  (((48 <=? n) && (n <=? 57)) || ((65 <=? n) && (n <=? 90))
   || ((97 <=? n) && (n <=? 122)))%nat.

Definition escape (fold : bool) (c : ascii) : option regex :=
  if Ascii.eqb c "r"%char then Some (RChar CR false)
  else if Ascii.eqb c "n"%char then Some (RChar LF false)
  else if Ascii.eqb c "t"%char then Some (RChar "009"%char false)
  else if is_alnum c then None
  else Some (RChar c fold).

Fixpoint lex (fold : bool) (s : string) : option (list tok) :=
  match s with
  | EmptyString => Some []
  | String "\"%char (String c s') =>
      match escape fold c, lex fold s' with
      | Some r, Some ts => Some (TAtom r :: ts)
      | _, _ => None
      end
  | String "|"%char s' => option_map (cons TBar) (lex fold s')
  | String "."%char s' => option_map (cons (TAtom RAnyNL)) (lex fold s')
  | String "+"%char (String "?"%char s') => option_map (cons (TPlus true)) (lex fold s')
  | String "+"%char s' => option_map (cons (TPlus false)) (lex fold s')
  | String c s' =>
      if is_meta c || Ascii.eqb c "\"%char then None
      else option_map (cons (TAtom (RChar c fold))) (lex fold s')
  end.

(** Branches of a top-level alternation, atoms in order; `+` with no
    operand, or applied to a repetition, is a compile error. *)
Fixpoint assemble (ts : list tok) (branch : list regex)
  : option (list (list regex)) :=
  match ts with
  | [] => Some [rev branch]
  | TAtom a :: ts' => assemble ts' (a :: branch)
  | TPlus lz :: ts' =>
      match branch with
      | RPlus _ _ :: _ => None
      | a :: b => assemble ts' (RPlus a lz :: b)
      | [] => None
      end
  | TBar :: ts' => option_map (cons (rev branch)) (assemble ts' [])
  end.

Definition mk_seq (atoms : list regex) : regex :=
  match atoms with
  | [] => REps
  | a :: rest => fold_left RCat rest a
  end.

Fixpoint mk_alt (bs : list (list regex)) : regex :=
  match bs with
  | [] => REps
  | [b] => mk_seq b
  | b :: rest => RAlt (mk_seq b) (mk_alt rest)
  end.

(** regexp.Compile on the fragment. *)
Definition re_compile (p : string) : option regex :=
  let '(fold, body) :=
    if String.prefix "(?i)" p then (true, drop 4 p) else (false, p) in
  match lex fold body with
  | None => None
  | Some ts => option_map mk_alt (assemble ts [])
  end.

(** compileHeaderRegexps(suffix, headers...) *)
Fixpoint compileHeaderRegexps (suffix : string) (headers : list string)
  : option (list regex) :=
  match headers with
  | [] => Some []
  | h :: hs =>
      match re_compile ("(?i)\r\n" ++ h ++ suffix), compileHeaderRegexps suffix hs with
      | Some r, Some rs => Some (r :: rs)
      | _, _ => None
      end
  end.

(** The closure returned by stripHeaders:
    [for re.Match(buf) { buf = re.ReplaceAll(buf, crlf) }] per regexp.
    The loop need not stop, so it runs on fuel: [None] means the fuel
    ran out with the loop condition still true. *)
Fixpoint strip_one (fuel : nat) (r : regex) (buf : string) : option string :=
  match fuel with
  | O => None
  | S f => if re_match r buf then strip_one f r (replace_all r buf crlf) else Some buf
  end.

Fixpoint strip_all (fuel : nat) (rs : list regex) (buf : string) : option string :=
  match rs with
  | [] => Some buf
  | r :: rs' =>
      match strip_one fuel r buf with
      | Some b => strip_all fuel rs' b
      | None => None
      end
  end.

(** stripHeaders(headers...): [None] is the compile error; otherwise the
    header transformer, run with [fuel] loop iterations per regexp. *)
Definition stripHeaders (headers : list string)
  : option (nat -> string -> option string) :=
  match compileHeaderRegexps ":.+?\r\n" headers with
  | None => None
  | Some rs => Some (fun fuel buf => strip_all fuel rs buf)
  end.

(** The package-level funcs set in init(); [stripHeaders] of a fixed
    name.  The model gives the loop [S (length buf)] passes, enough for
    these names, and leaves [buf] unchanged if they ran out. *)
Definition strip_fixed (name : string) (buf : string) : string :=
  match stripHeaders [name] with
  | Some f => match f (S (String.length buf)) buf with Some b => b | None => buf end
  | None => buf
  end.

Definition stripTransferEncodingHeader : string -> string :=
  strip_fixed "Transfer-Encoding".
Definition stripContentLengthHeader : string -> string :=
  strip_fixed "Content-Length".

(* ------------------------------------------------------------------ *)
(** ** Body transformers and transformAndAppend (util.go) *)

(** The BodyTransformer interface.  [BodyTransform urlstr code ctype r]
    is what the transformer writes to [w] given the bytes it reads from
    [r], with its success flag; [bt_id] names the value for traces. *)
Record BodyTransformer : Type := {
  bt_id : nat;
  TransformPriority : Z;
  BodyTransform : string -> Z -> string -> string -> result (string * bool)
}.

(** The loop of transformAndAppend: [r = bytes.NewReader(w.Bytes())]
    after each transformer, [break] on [!success].  The second component
    lists the transformers invoked, in order. *)
Fixpoint run_transformers (ts : list BodyTransformer) (urlstr : string)
  (code : Z) (contentType : string) (r : string)
  : result string * list BodyTransformer :=
  match ts with
  | [] => (Ok r, [])
  | t :: ts' =>
      match BodyTransform t urlstr code contentType r with
      | Err e => (Err e, [t])
      | Ok (w, success) =>
          if success then
            let '(res, tr) := run_transformers ts' urlstr code contentType w in
            (res, t :: tr)
          else (Ok w, [t])
      end
  end.

Definition transformAndAppend (buf r urlstr : string) (code : Z)
  (contentType : string) (stripContentLength : bool)
  (bodyTransformers : list BodyTransformer)
  : result string * list BodyTransformer :=
  let '(res, tr) := run_transformers bodyTransformers urlstr code contentType r in
  match res with
  | Err e => (Err e, tr)
  | Ok body =>
      if stripContentLength then (Ok (stripContentLengthHeader buf ++ body), tr)
      else (Ok (buf ++ body), tr)
  end.

(* ------------------------------------------------------------------ *)
(** ** Marshalers (marshal.go) *)

#[local] Set Warnings "-register-all".
Inductive MarshalUnmarshaler : Type :=
  | GzipMarshalUnmarshaler (Level : Z)
  | ZlibMarshalUnmarshaler (Level : Z) (Dict : string)
  | FlatMarshalUnmarshaler (Chain : option MarshalUnmarshaler).

(** The compress/gzip and compress/zlib codecs.  [gzip_write l b] is
    what a gzip.Writer of level [l] emits for [b] after Flush and Close;
    [zlib_write_open l d b] is what a zlib.Writer emits for [b] when it is
    never closed; [gzip_read] and [zlib_read] read a whole stream. *)
Class Codecs : Type := {
  gzip_write : Z -> string -> string;
  gzip_read : string -> result string;
  zlib_write_open : Z -> string -> string -> string;
  zlib_read : string -> string -> result string
}.

(** NewWriterLevel accepts HuffmanOnly (-2) .. BestCompression (9). *)
Definition level_ok (l : Z) : bool := ((-2 <=? l) && (l <=? 9))%Z.

Section Marshal.
Context `{Codecs}.

Fixpoint Marshal (m : MarshalUnmarshaler) (buf : string) : result string :=
  match m with
  | GzipMarshalUnmarshaler l =>
      if level_ok l then Ok (gzip_write l buf) else Err (ECompressLevel l)
  | ZlibMarshalUnmarshaler l d =>
      if level_ok l then Ok (zlib_write_open l d buf) else Err (ECompressLevel l)
  | FlatMarshalUnmarshaler c =>
      match bytes_index crlfcrlf buf with
      | None => Err EBoundary
      | Some i =>
          let rest := drop (i + 4) buf in
          match c with
          | None => Ok rest
          | Some c' => Marshal c' rest
          end
      end
  end.

Fixpoint Unmarshal (m : MarshalUnmarshaler) (data : string) : result string :=
  match m with
  | GzipMarshalUnmarshaler _ => gzip_read data
  | ZlibMarshalUnmarshaler _ d => zlib_read d data
  | FlatMarshalUnmarshaler c =>
      match match c with None => Ok data | Some c' => Unmarshal c' data end with
      | Err e => Err e
      | Ok b => Ok (httpHeader ++ b)
      end
  end.

End Marshal.

(* ------------------------------------------------------------------ *)
(** ** http.ReadResponse

    The head is read up to the first blank line; the status line is cut
    as net/http does (proto, then a three-digit code); header lines are
    kept verbatim; the body is the rest of the stream (the payloads the
    cache parses carry no Content-Length or chunked framing). *)

Record Response : Type := {
  StatusCode : Z;
  Status : string;
  HeaderLines : list string;
  Body : string
}.

Fixpoint split_lines (fuel : nat) (s : string) : list string :=
  match fuel with
  | O => [s]
  | S f =>
      match bytes_index crlf s with
      | None => [s]
      | Some i => take i s :: split_lines f (drop (i + 2) s)
      end
  end.

(** strings.Cut(s, " ") *)
Definition cut_space (s : string) : option (string * string) :=
  match bytes_index " " s with
  | None => None
  | Some i => Some (take i s, drop (i + 1) s)
  end.

Fixpoint trim_left_spaces (s : string) : string :=
  match s with
  | String " "%char s' => trim_left_spaces s'
  | _ => s
  end.

Definition digit (c : ascii) : option Z :=
  let n := nat_of_ascii c in
  if ((48 <=? n) && (n <=? 57))%nat then Some (Z.of_nat (n - 48)) else None.

Fixpoint atoi_acc (s : string) (acc : Z) : option Z :=
  match s with
  | EmptyString => Some acc
  | String c s' =>
      match digit c with
      | Some d => atoi_acc s' (10 * acc + d)%Z
      | None => None
      end
  end.

Definition parse_status_line (line : string) : result (Z * string) :=
  match cut_space line with
  | None => Err (EMalformed "malformed HTTP response")
  | Some (_, status) =>
      let status := trim_left_spaces status in
      let code := match cut_space status with Some (c, _) => c | None => status end in
      if negb (String.length code =? 3)%nat then Err (EMalformed "malformed HTTP status code")
      else match atoi_acc code 0 with
           | Some n => Ok (n, status)
           | None => Err (EMalformed "malformed HTTP status code")
           end
  end.

Definition ReadResponse (s : string) : result Response :=
  match bytes_index crlfcrlf s with
  | None => Err EUnexpectedEOF
  | Some i =>
      match split_lines (String.length s) (take i s) with
      | [] => Err EUnexpectedEOF
      | line :: hdrs =>
          match parse_status_line line with
          | Err e => Err e
          | Ok (code, status) =>
              Ok {| StatusCode := code; Status := status; HeaderLines := hdrs;
                    Body := drop (i + 4) s |}
          end
      end
  end.

(* ------------------------------------------------------------------ *)
(** ** Requests, responses from the transport, policies *)

(** The parts of an *http.Request the cache reads. *)
Record Request : Type := {
  Method : string;
  Scheme : string;
  Host : string;
  Path : string;
  Query : list (string * list string);   (* req.URL.Query() *)
  URLString : string;                    (* req.URL.String() *)
  CtxTTL : option Z                      (* TTL(req.Context()) *)
}.

(** The *http.Response a transport returns: [Dump] is
    httputil.DumpResponse(res, false), [RawBody] the bytes of res.Body. *)
Record HttpRes : Type := {
  ResStatus : Z;
  ResContentType : string;               (* res.Header.Get("Content-Type") *)
  Dump : string;
  RawBody : string
}.

(** Policy, without its Validator, which RoundTrip receives apart. *)
Record Policy : Type := {
  TTL : Z;
  HeaderTransformers : list (string -> string);
  BodyTransformers : list BodyTransformer;
  MarshalUnmarshalerOf : option MarshalUnmarshaler
}.

Definition empty_policy : Policy :=
  {| TTL := 0; HeaderTransformers := []; BodyTransformers := [];
     MarshalUnmarshalerOf := None |}.

(* ------------------------------------------------------------------ *)
(** ** The afero.Fs the cache uses

    A failing operation leaves the store as it was.  [fs_write_file]
    is OpenFile(O_APPEND|O_CREATE|O_WRONLY|O_TRUNC), Write, Close;
    [fs_read_file] is OpenFile(O_RDONLY) read to the end. *)

Record FileInfo : Type := {
  IsDir : bool;
  ModTime : Z
}.

Class Fs (FS : Type) : Type := {
  fs_stat : FS -> string -> result FileInfo;
  fs_mkdir_all : FS -> string -> result FS;
  fs_write_file : FS -> string -> string -> result FS;
  fs_read_file : FS -> string -> result string;
  fs_remove : FS -> string -> result FS
}.

(** time.Time{} *)
Definition zero_time : Z := 0.

Fixpoint last_slash (s : string) (i : nat) (acc : option nat) : option nat :=
  match s with
  | EmptyString => acc
  | String c s' => last_slash s' (S i) (if Ascii.eqb c "/"%char then Some i else acc)
  end.

(** path.Dir, on keys as Match builds them (slashes collapsed, no "."
    or ".." segments): the part before the last slash, "." if none. *)
Definition path_dir (p : string) : string :=
  match last_slash p 0 None with
  | None => "."
  | Some O => "/"
  | Some i => take i p
  end.

Section Cache.
Context {FS : Type} `{Fs FS} `{Codecs}.

(** Cache.Exec up to the store: the pre-marshal payload [body] and the
    store after writing the artifact. *)
Definition exec_payload (transport : Request -> result HttpRes) (fs : FS)
  (key : string) (p : Policy) (req : Request) : result (string * FS) :=
  match transport req with
  | Err e => Err e
  | Ok res =>
      let buf := stripTransferEncodingHeader (Dump res) in
      let buf := fold_left (fun b t => t b) (HeaderTransformers p) buf in
      match fst (transformAndAppend buf (RawBody res) (URLString req)
                   (ResStatus res) (ResContentType res)
                   (negb (String.eqb (Method req) "HEAD"))
                   (BodyTransformers p)) with
      | Err e => Err e
      | Ok body =>
          match match MarshalUnmarshalerOf p with
                | None => Ok body
                | Some m => Marshal m body
                end with
          | Err e => Err e
          | Ok art =>
              if (String.length art =? 0)%nat then Ok (body, fs)
              else
                match fs_mkdir_all fs (path_dir key) with
                | Err e => Err e
                | Ok fs1 =>
                    match fs_write_file fs1 key art with
                    | Err e => Err e
                    | Ok fs2 => Ok (body, fs2)
                    end
                end
          end
      end
  end.

(** Cache.Exec: the payload parsed back with http.ReadResponse. *)
Definition Exec (transport : Request -> result HttpRes) (fs : FS) (key : string)
  (p : Policy) (req : Request) : result (Response * FS) :=
  match exec_payload transport fs key p req with
  | Err e => Err e
  | Ok (body, fs') =>
      match ReadResponse body with
      | Err e => Err e
      | Ok r => Ok (r, fs')
      end
  end.

(** Cache.Load up to the parse: the stream handed to http.ReadResponse. *)
Definition load_stream (fs : FS) (key : string) (p : Policy) : result string :=
  match fs_read_file fs key with
  | Err e => Err e
  | Ok data =>
      match MarshalUnmarshalerOf p with
      | None => Ok data
      | Some m => Unmarshal m data
      end
  end.

Definition Load (fs : FS) (key : string) (p : Policy) : result Response :=
  match load_stream fs key p with
  | Err e => Err e
  | Ok stream => ReadResponse stream
  end.

(** Cache.Mod *)
Definition Mod (fs : FS) (key : string) : result Z :=
  match fs_stat fs key with
  | Err e => Err e
  | Ok fi => if IsDir fi then Err (EIsDir key) else Ok (ModTime fi)
  end.

(** Cache.Stale; [now] is time.Now(), [ctx] is TTL(ctx). *)
Definition Stale (fs : FS) (now : Z) (ctx : option Z) (key : string) (ttl : Z)
  : result (bool * Z) :=
  match Mod fs key with
  | Err e => if is_not_exist e then Ok (true, zero_time) else Err e
  | Ok mtime =>
      let ttl := match ctx with Some d => d | None => ttl end in
      Ok (negb (ttl =? 0)%Z && (mtime + ttl <? now)%Z, mtime)
  end.

End Cache.

(* ------------------------------------------------------------------ *)
(** ** SimpleMatcher and Cache.Match (match.go, diskcache.go) *)

(** strings.NewReplacer(pairs...).Replace: scanning left to right, at
    each position the first pair (in argument order) whose old string
    is a prefix of the rest is replaced; all old strings here are
    non-empty ("{{...}}"). *)
Fixpoint replacer_lookup (pairs : list (string * string)) (s : string)
  : option (string * nat) :=
  match pairs with
  | [] => None
  | (old, new) :: ps =>
      if String.prefix old s then Some (new, String.length old)
      else replacer_lookup ps s
  end.

Fixpoint replace_go (pairs : list (string * string)) (fuel : nat) (s : string)
  : string :=
  match fuel with
  | O => s
  | S f =>
      match s with
      | EmptyString => EmptyString
      | String c s' =>
          match replacer_lookup pairs s with
          | Some (new, n) => new ++ replace_go pairs f (drop n s)
          | None => String c (replace_go pairs f s')
          end
      end
  end.

Definition Replace (pairs : list (string * string)) (s : string) : string :=
  replace_go pairs (S (String.length s)) s.

(** fixRE = regexp.MustCompile(`/+`) *)
Definition fixRE : regex :=
  match re_compile "/+" with Some r => r | None => REps end.

(** The method glob and the host and path regexps are kept as the
    functions they compute: glob.Match and FindStringSubmatch. *)
Record SimpleMatcher : Type := {
  MethodMatch : string -> bool;
  HostFind : string -> option (list string);
  hostSubexps : list string;
  PathFind : string -> option (list string);
  pathSubexps : list string;
  KeyTemplate : string;
  indexPath : string;
  longPathHandler : option (string -> string);
  queryEncoder : option (list (string * list string) -> string);
  MatcherPolicy : Policy
}.

(** for i := 1; i < len(subexps); i++ { if name != "" { pairs += ... } } *)
Definition capture_pairs (subexps caps : list string) : list (string * string) :=
  flat_map (fun i =>
              let name := nth i subexps "" in
              if String.eqb name "" then []
              else [("{{" ++ name ++ "}}", nth i caps "")])
           (seq 1 (length subexps - 1)).

Definition key_pairs (m : SimpleMatcher) (req : Request) (h p : list string)
  : list (string * string) :=
  ("{{method}}", to_lower (Method req))
    :: capture_pairs (hostSubexps m) h
    ++ capture_pairs (pathSubexps m) p
    ++ match queryEncoder m with
       | Some enc => [("{{query}}", enc (Query req))]
       | None => []
       end.

(** SimpleMatcher.Match *)
Definition SimpleMatch (m : SimpleMatcher) (req : Request) : result (string * Policy) :=
  if negb (MethodMatch m (Method req)) then Ok ("", empty_policy) else
  match HostFind m (Scheme req ++ "://" ++ Host req) with
  | None => Ok ("", empty_policy)
  | Some h =>
      match PathFind m (Path req) with
      | None => Ok ("", empty_policy)
      | Some p =>
          let key := Replace (key_pairs m req h p) (KeyTemplate m) in
          let key := if String.eqb key "" || has_suffix "/" key
                     then key ++ indexPath m else key in
          let key := trim_suffix "/" (replace_all fixRE key "/") in
          let key := match longPathHandler m with
                     | Some f => f key
                     | None => key
                     end in
          Ok (key, MatcherPolicy m)
      end
  end.

(** The Matcher interface: a SimpleMatcher or any other implementation. *)
Inductive Matcher : Type :=
  | MSimple (m : SimpleMatcher)
  | MOther (match_fn : Request -> result (string * Policy)).

Definition MatcherMatch (m : Matcher) (req : Request) : result (string * Policy) :=
  match m with
  | MSimple sm => SimpleMatch sm req
  | MOther f => f req
  end.

Record Cache : Type := {
  matchers : list Matcher;
  matcher : SimpleMatcher;
  noDefault : bool
}.

Fixpoint first_match (ms : list Matcher) (req : Request) : result (string * Policy) :=
  match ms with
  | [] => Ok ("", empty_policy)
  | m :: ms' =>
      match MatcherMatch m req with
      | Err e => Err e
      | Ok (key, p) => if String.eqb key "" then first_match ms' req else Ok (key, p)
      end
  end.

(** Cache.Match *)
Definition CacheMatch (c : Cache) (req : Request) : result (string * Policy) :=
  first_match (matchers c ++ (if noDefault c then [] else [MSimple (matcher c)])) req.

Section Evict.
Context {FS : Type} `{Fs FS}.

(** Cache.EvictKey *)
Definition EvictKey (fs : FS) (key : string) : result FS := fs_remove fs key.

(** Cache.Evict *)
Definition Evict (c : Cache) (fs : FS) (req : Request) : result FS :=
  match CacheMatch c req with
  | Err e => Err e
  | Ok (key, _) => EvictKey fs key
  end.

End Evict.

(* ------------------------------------------------------------------ *)
(** ** Validators (validate.go, opts.go) *)

(** Validity: Error = 0, Retry = 1, Valid = 2 (iota); a Go int. *)
Definition Error : Z := 0.
Definition Retry : Z := 1.
Definition Valid : Z := 2.

(** The Validator interface over a validator's own state [VS]:
    Validate(req, res, mod, stale) with the state before and after. *)
Definition Validator (VS : Type) : Type :=
  VS -> Request -> Response -> Z -> bool -> (Z * option error) * VS.

(** ValidatorFunc(req, res, mod, stale, count) *)
Definition ValidatorFunc : Type :=
  Request -> Response -> Z -> bool -> Z -> Z * option error.

(** SimpleValidator: its state is [count]. *)
Definition SimpleValidate (f : ValidatorFunc) : Validator Z :=
  fun count req res mtime stale =>
    match f req res mtime stale count with
    | (_, Some e) => ((Error, Some e), count)
    | (validity, None) => ((validity, None), (count + 1)%Z)
    end.

(** slices.Contains *)
Definition containsInt (haystack : list Z) (needle : Z) : bool :=
  existsb (Z.eqb needle) haystack.

(** The ValidatorFunc of WithRetryStatusCode(retries, expected...). *)
Definition retry_status_code (retries : Z) (expected : list Z) : ValidatorFunc :=
  fun _ res _ _ count =>
    if (retries <? count)%Z && negb (containsInt expected (StatusCode res))
    then (Retry, None) else (Valid, None).

(* ------------------------------------------------------------------ *)
(** ** Cache.Fetch and the loop of Cache.RoundTrip *)

Section RoundTrip.
Context {FS : Type} `{Fs FS} `{Codecs}.
Context {VS : Type}.

(** Cache.Fetch at time [now]: the result, and whether Exec was called. *)
Definition Fetch (transport : Request -> result HttpRes) (fs : FS) (now : Z)
  (key : string) (p : Policy) (req : Request) (force : bool)
  : result (bool * Z * Response * FS) * bool :=
  match Stale fs now (CtxTTL req) key (TTL p) with
  | Err e => (Err e, false)
  | Ok (stale, mtime) =>
      if stale || force then
        match Exec transport fs key p req with
        | Err e => (Err e, true)
        | Ok (res, fs') =>
            match Mod fs' key with
            | Err e => (Err e, true)
            | Ok mtime' => (Ok (false, mtime', res, fs'), true)
            end
        end
      else
        match Load fs key p with
        | Err e => (Err e, false)
        | Ok res => (Ok (true, mtime, res, fs), false)
        end
  end.

(** The [for] loop of RoundTrip, run for at most [fuel] iterations;
    iteration [i] reads the clock [clock i].  It returns the outcome
    ([None] when the fuel ran out), the store, the validator state and
    the number of Exec calls made. *)
Fixpoint rt_loop (transport : Request -> result HttpRes) (clock : nat -> Z)
  (key : string) (p : Policy) (validator : option (Validator VS))
  (req : Request) (fuel i : nat) (force : bool) (fs : FS) (vs : VS)
  : option (result Response) * FS * VS * nat :=
  match fuel with
  | O => (None, fs, vs, O)
  | S f =>
      let '(r, ex) := Fetch transport fs (clock i) key p req force in
      let n := if ex then 1%nat else 0%nat in
      match r with
      | Err e => (Some (Err e), fs, vs, n)
      | Ok (stale, mtime, res, fs') =>
          match validator with
          | None => (Some (Ok res), fs', vs, n)
          | Some v =>
              let '((validity, verr), vs') := v vs req res mtime stale in
              match verr with
              | Some e => (Some (Err e), fs', vs', n)
              | None =>
                  if (validity =? Error)%Z then (Some (Err EValidityError), fs', vs', n)
                  else if (validity =? Retry)%Z then
                    let '(o, fs'', vs'', m) :=
                      rt_loop transport clock key p validator req f (S i) true fs' vs' in
                    (o, fs'', vs'', (n + m)%nat)
                  else if (validity =? Valid)%Z then (Some (Ok res), fs', vs', n)
                  else (Some (Err (EValidityUnknown validity)), fs', vs', n)
              end
          end
      end
  end.

(** What RoundTrip hands back: the transport's own response when no
    policy matches, or a response of the cache. *)
Inductive RoundTripResponse : Type :=
  | Passthrough (r : HttpRes)
  | Cached (r : Response).

(** Cache.RoundTrip; [validator] is the Validator of the matched policy. *)
Definition RoundTrip (c : Cache) (transport : Request -> result HttpRes)
  (clock : nat -> Z) (validator : option (Validator VS)) (fuel : nat)
  (req : Request) (fs : FS) (vs : VS)
  : option (result RoundTripResponse) * FS * VS * nat :=
  match CacheMatch c req with
  | Err e => (Some (Err e), fs, vs, O)
  | Ok (key, p) =>
      if String.eqb key "" then
        match transport req with
        | Err e => (Some (Err e), fs, vs, O)
        | Ok r => (Some (Ok (Passthrough r)), fs, vs, O)
        end
      else
        let '(o, fs', vs', n) :=
          rt_loop transport clock key p validator req fuel 0 false fs vs in
        (option_map (fun r => match r with
                              | Err e => Err e
                              | Ok res => Ok (Cached res)
                              end) o, fs', vs', n)
  end.

End RoundTrip.

(* ------------------------------------------------------------------ *)
(** ** The sort in New

    Slices are views (array, offset, length) on shared backing arrays:
    WithBodyTransformers stores the caller's variadic slice, which may be
    a sub-slice of any array, and the append in SimpleMatcher.apply can
    hand the default matcher's array to a user matcher.  sort.Slice sorts
    the [len] cells of the array that start at the offset, in place. *)

Definition Store : Type := nat -> list BodyTransformer.

Record Slice : Type := {
  sl_array : nat;
  sl_off : nat;
  sl_len : nat
}.

Definition slice_view (st : Store) (sl : Slice) : list BodyTransformer :=
  firstn (sl_len sl) (skipn (sl_off sl) (st (sl_array sl))).

Definition store_set (st : Store) (a : nat) (cells : list BodyTransformer) : Store :=
  fun b => if Nat.eqb a b then cells else st b.

(** A Go slice lies within its backing array. *)
Definition slice_fits (st : Store) (sl : Slice) : Prop :=
  (sl_off sl + sl_len sl <= length (st (sl_array sl)))%nat.

(** Two slices are on different arrays, or their ranges of cells are
    disjoint, or one range contains the other. *)
Definition ranges_compatible (sl sl' : Slice) : Prop :=
  sl_array sl <> sl_array sl'
  \/ (sl_off sl + sl_len sl <= sl_off sl')%nat
  \/ (sl_off sl' + sl_len sl' <= sl_off sl)%nat
  \/ ((sl_off sl' <= sl_off sl)%nat /\ (sl_off sl + sl_len sl <= sl_off sl' + sl_len sl')%nat)
  \/ ((sl_off sl <= sl_off sl')%nat /\ (sl_off sl' + sl_len sl' <= sl_off sl + sl_len sl)%nat).

(** The matchers New visits: a SimpleMatcher's BodyTransformers slice,
    or another Matcher, whose policy's transformers New does not see. *)
Inductive RegMatcher : Type :=
  | RSimple (sl : Slice)
  | ROther (bts : list BodyTransformer).

Definition prio_le (a b : BodyTransformer) : Prop :=
  (TransformPriority a <= TransformPriority b)%Z.

(** sort.Slice(x, less) with less = TransformPriority(a) < TransformPriority(b). *)
Definition sort_in_place (sort : list BodyTransformer -> list BodyTransformer)
  (st : Store) (sl : Slice) : Store :=
  let cells := st (sl_array sl) in
  store_set st (sl_array sl)
    (firstn (sl_off sl) cells
     ++ sort (firstn (sl_len sl) (skipn (sl_off sl) cells))
     ++ skipn (sl_off sl + sl_len sl) cells).

(** for _, v := range append(c.matchers, c.matcher) { if SimpleMatcher: sort } *)
Definition new_sort (sort : list BodyTransformer -> list BodyTransformer)
  (st : Store) (ms : list RegMatcher) : Store :=
  fold_left (fun st m =>
               match m with
               | RSimple sl => sort_in_place sort st sl
               | ROther _ => st
               end) ms st.

(** The BodyTransformers of the policy a matcher returns after New. *)
Definition policy_transformers (st : Store) (m : RegMatcher) : list BodyTransformer :=
  match m with
  | RSimple sl => slice_view st sl
  | ROther bts => bts
  end.

(* ------------------------------------------------------------------ *)
(** ** Concrete instances used to run the model

    An in-memory store (path, (contents, mtime)) whose writes are stamped
    with the store's clock, and a codec instance whose compressed form
    is the plain bytes; the zlib half stands for an unterminated stream
    (the two header bytes a zlib.Writer emits before Close). *)

Record MapFs : Type := {
  mf_files : list (string * (string * Z));
  mf_now : Z
}.

Fixpoint mf_lookup (k : string) (l : list (string * (string * Z))) : option (string * Z) :=
  match l with
  | [] => None
  | (k', v) :: l' => if String.eqb k k' then Some v else mf_lookup k l'
  end.

Definition mf_without (k : string) (l : list (string * (string * Z))) :=
  filter (fun kv => negb (String.eqb k (fst kv))) l.

#[global] Instance MapFs_Fs : Fs MapFs := {
  fs_stat s k :=
    match mf_lookup k (mf_files s) with
    | Some (_, t) => Ok {| IsDir := false; ModTime := t |}
    | None => Err (ENotExist k)
    end;
  fs_mkdir_all s _ := Ok s;
  fs_write_file s k d :=
    Ok {| mf_files := (k, (d, mf_now s)) :: mf_without k (mf_files s);
          mf_now := mf_now s |};
  fs_read_file s k :=
    match mf_lookup k (mf_files s) with
    | Some (d, _) => Ok d
    | None => Err (ENotExist k)
    end;
  fs_remove s k :=
    match mf_lookup k (mf_files s) with
    | Some _ => Ok {| mf_files := mf_without k (mf_files s); mf_now := mf_now s |}
    | None => Err (ENotExist k)
    end
}.

#[global] Instance Plain_Codecs : Codecs := {
  gzip_write _ b := b;
  gzip_read b := Ok b;
  zlib_write_open _ _ _ := String "120"%char (String "156"%char EmptyString);
  zlib_read _ _ := Err EUnexpectedEOF
}.

Definition get_req (scheme host path : string) : Request :=
  {| Method := "GET"; Scheme := scheme; Host := host; Path := path; Query := [];
     URLString := scheme ++ "://" ++ host ++ path; CtxTTL := None |}.

(** A transport answering every request with [status] and body [body]. *)
Definition fixed_transport (status_line : string) (code : Z) (body : string)
  : Request -> result HttpRes :=
  fun _ => Ok {| ResStatus := code; ResContentType := "text/plain";
                 Dump := status_line ++ crlf ++ "Content-Type: text/plain" ++ crlfcrlf;
                 RawBody := body |}.

Definition const_clock (t : Z) : nat -> Z := fun _ => t.

(** A cache whose only matcher is a default one accepting GET alone. *)
Definition get_only_cache : Cache :=
  {| matchers := [];
     matcher := {| MethodMatch := String.eqb "GET"; HostFind := fun h => Some [h];
                   hostSubexps := [""]; PathFind := fun p => Some [p]; pathSubexps := [""];
                   KeyTemplate := "{{method}}/x"; indexPath := "?index";
                   longPathHandler := None; queryEncoder := None;
                   MatcherPolicy := empty_policy |};
     noDefault := false |}.

Definition post_req : Request :=
  {| Method := "POST"; Scheme := "https"; Host := "example.com"; Path := "/";
     Query := []; URLString := "https://example.com/"; CtxTTL := None |}.

Definition fs_with (k data : string) (t now : Z) : MapFs :=
  {| mf_files := [(k, (data, t))]; mf_now := now |}.

(** A stored artifact in identity form, and what Load parses from it. *)
Definition ok_artifact : string := "HTTP/1.1 200 OK" ++ crlfcrlf ++ "hi".

Definition ok_response : Response :=
  {| StatusCode := 200; Status := "200 OK"; HeaderLines := []; Body := "hi" |}.

(** A validator that answers Error with no error value. *)
Definition error_validator : Validator unit := fun vs _ _ _ _ => ((Error, None), vs).

(** [Succeeds ts urlstr code ctype r w]: every transformer of [ts]
    returns success when run in turn on [r], and the last one writes [w]. *)
Inductive Succeeds (urlstr : string) (code : Z) (ctype : string)
  : list BodyTransformer -> string -> string -> Prop :=
  | Succeeds_nil r : Succeeds urlstr code ctype [] r r
  | Succeeds_cons t ts r w w' :
      BodyTransform t urlstr code ctype r = Ok (w, true) ->
      Succeeds urlstr code ctype ts w w' ->
      Succeeds urlstr code ctype (t :: ts) r w'.

(** Sample body transformers. *)
Definition bt_pass (id : nat) (prio : Z) : BodyTransformer :=
  {| bt_id := id; TransformPriority := prio;
     BodyTransform := fun _ _ _ r => Ok (r, true) |}.

Definition bt_stop (id : nat) (prio : Z) (out : string) : BodyTransformer :=
  {| bt_id := id; TransformPriority := prio;
     BodyTransform := fun _ _ _ _ => Ok (out, false) |}.

Definition bt_fail (id : nat) (prio : Z) : BodyTransformer :=
  {| bt_id := id; TransformPriority := prio;
     BodyTransform := fun _ _ _ _ => Err (EOther "transform failed") |}.

(** A store holding no file at all. *)
Definition empty_fs (now : Z) : MapFs := {| mf_files := []; mf_now := now |}.

(** A validator recording the stale flag of every call it receives. *)
Definition recording_validator : Validator (list bool) :=
  fun vs _ _ _ stale => ((Valid, None), stale :: vs).

(** An upstream that always answers 500, what it yields once stored,
    and the validator of WithRetryStatusCode(0, 200). *)
Definition status500_transport : Request -> result HttpRes :=
  fixed_transport "HTTP/1.1 500 Internal Server Error" 500 "oops".

Definition resp500 : Response :=
  {| StatusCode := 500; Status := "500 Internal Server Error";
     HeaderLines := ["Content-Type: text/plain"]; Body := "oops" |}.

Definition fs500 : MapFs :=
  fs_with "get/x" ("HTTP/1.1 500 Internal Server Error" ++ crlf
                   ++ "Content-Type: text/plain" ++ crlfcrlf ++ "oops") 5 5.

Definition root_req : Request := get_req "https" "example.com" "/".

Definition retry_validator_0 : Validator Z :=
  SimpleValidate (retry_status_code 0 [200%Z]).

(** The steps of the key construction, named one by one. *)
Definition append_index (idx key : string) : string :=
  if String.eqb key "" || has_suffix "/" key then key ++ idx else key.

Definition collapse_slashes (key : string) : string := replace_all fixRE key "/".

Definition apply_long_path (h : option (string -> string)) (key : string) : string :=
  match h with Some f => f key | None => key end.

(** The key construction in the order the specification states it:
    substitute, collapse runs of '/', trim a trailing '/', then append
    the index token if the result is empty or ends in '/', then the
    long-path handler. *)
Definition SimpleMatch_spec_order (m : SimpleMatcher) (req : Request)
  : result (string * Policy) :=
  if negb (MethodMatch m (Method req)) then Ok ("", empty_policy) else
  match HostFind m (Scheme req ++ "://" ++ Host req) with
  | None => Ok ("", empty_policy)
  | Some h =>
      match PathFind m (Path req) with
      | None => Ok ("", empty_policy)
      | Some p =>
          let key := Replace (key_pairs m req h p) (KeyTemplate m) in
          let key := trim_suffix "/" (collapse_slashes key) in
          Ok (apply_long_path (longPathHandler m) (append_index (indexPath m) key),
              MatcherPolicy m)
      end
  end.

(** A matcher for GET whose key template ends in a slash. *)
Definition dir_matcher : SimpleMatcher :=
  {| MethodMatch := String.eqb "GET"; HostFind := fun h => Some [h];
     hostSubexps := [""]; PathFind := fun p => Some [p]; pathSubexps := [""];
     KeyTemplate := "{{method}}/"; indexPath := "?index";
     longPathHandler := None; queryEncoder := None;
     MatcherPolicy := empty_policy |}.

(** Marshalers that involve no zlib stage. *)
Fixpoint zlib_free (m : MarshalUnmarshaler) : bool :=
  match m with
  | GzipMarshalUnmarshaler _ => true
  | ZlibMarshalUnmarshaler _ _ => false
  | FlatMarshalUnmarshaler None => true
  | FlatMarshalUnmarshaler (Some c) => zlib_free c
  end.

(** The stream a stored payload reads back as: the payload itself for
    the identity and gzip forms; for the flat form the synthetic head
    [httpHeader] followed by what the chain gives back for the bytes
    after the payload's first blank line. *)
Fixpoint stored_view (m : MarshalUnmarshaler) (buf : string) : result string :=
  match m with
  | GzipMarshalUnmarshaler _ => Ok buf
  | ZlibMarshalUnmarshaler _ _ => Ok buf
  | FlatMarshalUnmarshaler c =>
      match bytes_index crlfcrlf buf with
      | None => Err EBoundary
      | Some i =>
          let rest := drop (i + 4) buf in
          match match c with None => Ok rest | Some c' => stored_view c' rest end with
          | Err e => Err e
          | Ok b => Ok (httpHeader ++ b)
          end
      end
  end.

Definition policy_view (p : Policy) (body : string) : result string :=
  match MarshalUnmarshalerOf p with
  | None => Ok body
  | Some m => stored_view m body
  end.

(** The artifact Exec stores for a payload. *)
Definition policy_artifact `{Codecs} (p : Policy) (body : string) : result string :=
  match MarshalUnmarshalerOf p with
  | None => Ok body
  | Some m => Marshal m body
  end.

Definition flat_policy : Policy :=
  {| TTL := 0; HeaderTransformers := []; BodyTransformers := [];
     MarshalUnmarshalerOf := Some (FlatMarshalUnmarshaler None) |}.

Definition status404_transport : Request -> result HttpRes :=
  fixed_transport "HTTP/1.1 404 Not Found" 404 "gone".

Definition payload404 : string :=
  "HTTP/1.1 404 Not Found" ++ crlf ++ "Content-Type: text/plain" ++ crlfcrlf ++ "gone".

(** An insertion sort by TransformPriority: one implementation of the
    sort.Slice call in New. *)
Fixpoint insert_prio (t : BodyTransformer) (l : list BodyTransformer)
  : list BodyTransformer :=
  match l with
  | [] => [t]
  | x :: l' =>
      if (TransformPriority t <=? TransformPriority x)%Z then t :: l
      else x :: insert_prio t l'
  end.

Fixpoint insertion_sort (l : list BodyTransformer) : list BodyTransformer :=
  match l with
  | [] => []
  | x :: l' => insert_prio x (insertion_sort l')
  end.

(** An empty store of backing arrays. *)
Definition empty_store : Store := fun _ => [].

(* ------------------------------------------------------------------ *)
(** ** Cache.Cached *)

(** Cache.Cached (named Cache_Cached: Cached is the constructor of cached responses): Match, then Stale with the request's context TTL. *)
Definition Cache_Cached {FS : Type} `{Fs FS} (c : Cache) (fs : FS) (now : Z)
  (req : Request) : result bool :=
  match CacheMatch c req with
  | Err e => Err e
  | Ok (key, p) =>
      match Stale fs now (CtxTTL req) key (TTL p) with
      | Err e => Err e
      | Ok (stale, _) => Ok (negb stale)
      end
  end.

(** The response [fixed_transport "HTTP/1.1 200 OK" 200 "hi"] parses to,
    and the store after it was fetched for "get/x" at time 5. *)
Definition hi_response : Response :=
  {| StatusCode := 200; Status := "200 OK";
     HeaderLines := ["Content-Type: text/plain"]; Body := "hi" |}.

Definition fs_hi : MapFs :=
  fs_with "get/x" ("HTTP/1.1 200 OK" ++ crlf ++ "Content-Type: text/plain"
                   ++ crlfcrlf ++ "hi") 5 5.

(** get_only_cache with flat storage. *)
Definition flat_cache : Cache :=
  {| matchers := [];
     matcher := {| MethodMatch := String.eqb "GET"; HostFind := fun h => Some [h];
                   hostSubexps := [""]; PathFind := fun p => Some [p]; pathSubexps := [""];
                   KeyTemplate := "{{method}}/x"; indexPath := "?index";
                   longPathHandler := None; queryEncoder := None;
                   MatcherPolicy := flat_policy |};
     noDefault := false |}.

(* ------------------------------------------------------------------ *)
(** ** Truncator and PrefixStripper (transformers), and their options *)

Definition TransformPriorityFirst : Z := 10.
Definition TransformPriorityDecode : Z := 50.
Definition TransformPriorityModify : Z := 60.
Definition TransformPriorityMinify : Z := 80.
Definition TransformPriorityLast : Z := 90.

(** contains *)
Definition contains (haystack : list string) (needle : string) : bool :=
  existsb (String.eqb needle) haystack.

(** [if i := strings.Index(contentType, ";"); i != -1 { contentType =
    contentType[:i] }] *)
Definition media_type (contentType : string) : string :=
  match bytes_index ";" contentType with
  | Some i => take i contentType
  | None => contentType
  end.

(** Truncator{Priority, Match}.BodyTransform; [id] labels the value in
    traces.  io.Copy from the bytes.Reader into a bytes.Buffer does not
    fail. *)
Definition Truncator (id : nat) (Priority : Z)
  (Match : string -> Z -> string -> bool) : BodyTransformer :=
  {| bt_id := id; TransformPriority := Priority;
     BodyTransform := fun urlstr code contentType r =>
       if Match urlstr code contentType then Ok (EmptyString, false)
       else Ok (r, true) |}.

(** The Truncator of WithStatusCodeTruncator(statusCodes...). *)
Definition StatusCodeTruncator (id : nat) (statusCodes : list Z) : BodyTransformer :=
  Truncator id TransformPriorityFirst
    (fun _ statusCode _ => negb (containsInt statusCodes statusCode)).

(** The Truncator of WithErrorTruncator(). *)
Definition ErrorTruncator (id : nat) : BodyTransformer :=
  Truncator id TransformPriorityFirst (fun _ code _ => negb (code =? 200)%Z).

(** PrefixStripper{Priority, ContentTypes, Prefix}.BodyTransform. *)
Definition PrefixStripper (id : nat) (Priority : Z) (ContentTypes : list string)
  (Prefix : string) : BodyTransformer :=
  {| bt_id := id; TransformPriority := Priority;
     BodyTransform := fun _ _ contentType r =>
       let contentType := media_type contentType in
       if negb (length ContentTypes =? 0)%nat
          && negb (contains ContentTypes contentType)
       then Ok (r, true)
       else if String.prefix Prefix r
       then Ok (drop (String.length Prefix) r, true)
       else Err (EMissingPrefix Prefix) |}.

(** The PrefixStripper of WithPrefixStripper(prefix, contentTypes...). *)
Definition WithPrefixStripper (id : nat) (prefix : string)
  (contentTypes : list string) : BodyTransformer :=
  PrefixStripper id TransformPriorityModify contentTypes prefix.

(** A policy with another list of body transformers, and a response with
    an empty body. *)
Definition with_body_transformers (p : Policy) (ts : list BodyTransformer) : Policy :=
  {| TTL := TTL p; HeaderTransformers := HeaderTransformers p;
     BodyTransformers := ts; MarshalUnmarshalerOf := MarshalUnmarshalerOf p |}.

Definition without_body (res : HttpRes) : HttpRes :=
  {| ResStatus := ResStatus res; ResContentType := ResContentType res;
     Dump := Dump res; RawBody := EmptyString |}.

(** A JSON response carrying an XSSI prefix. *)
Definition json_transport (code : Z) (body : string) : Request -> result HttpRes :=
  fun _ => Ok {| ResStatus := code; ResContentType := "application/json; charset=utf-8";
                 Dump := "HTTP/1.1 200 OK" ++ crlf
                         ++ "Content-Type: application/json; charset=utf-8" ++ crlfcrlf;
                 RawBody := body |}.

Definition xssi_prefix : string := ")]}'" ++ String "010"%char EmptyString.

Definition xssi_policy : Policy :=
  with_body_transformers empty_policy
    [WithPrefixStripper 1 xssi_prefix ["application/json"]].

Definition xssi_cache : Cache :=
  {| matchers := []; matcher := {| MethodMatch := String.eqb "GET";
       HostFind := fun h => Some [h]; hostSubexps := [""];
       PathFind := fun p => Some [p]; pathSubexps := [""];
       KeyTemplate := "{{method}}/x"; indexPath := "?index";
       longPathHandler := None; queryEncoder := None;
       MatcherPolicy := xssi_policy |};
     noDefault := false |}.

(* ------------------------------------------------------------------ *)
(** ** url.QueryEscape, url.Values.Encode and WithQueryPrefix *)

(** net/url shouldEscape(c, encodeQueryComponent) *)
Definition shouldEscape (c : ascii) : bool :=
  if is_alnum c then false
  else negb (existsb (Ascii.eqb c) ["-"; "_"; "."; "~"]%char).

(** upperhex[n], n < 16 *)
Definition upperhex (n : nat) : ascii :=
  ascii_of_nat (if (n <? 10)%nat then (48 + n)%nat else (55 + n)%nat).

(** url.QueryEscape: escape(s, encodeQueryComponent), byte by byte. *)
Fixpoint QueryEscape (s : string) : string :=
  match s with
  | EmptyString => EmptyString
  | String c s' =>
      if Ascii.eqb c " " then String "+" (QueryEscape s')
      else if shouldEscape c then
        String "%" (String (upperhex (nat_of_ascii c / 16))
                     (String (upperhex (nat_of_ascii c mod 16)) (QueryEscape s')))
      else String c (QueryEscape s')
  end.

(** url.Values, as the association list of Request.Query; v[k] is the
    values of the first entry with key k, nil if there is none.  A Go
    map has each key once. *)
Definition Values : Type := list (string * list string).

Fixpoint values_get (v : Values) (k : string) : list string :=
  match v with
  | [] => []
  | (k', vs) :: v' => if String.eqb k k' then vs else values_get v' k
  end.

(** slices.Sort on strings (byte-wise order), as an insertion sort: a
    sorted permutation, the same list as any other sort gives. *)
Fixpoint insert_key (k : string) (ks : list string) : list string :=
  match ks with
  | [] => [k]
  | k' :: ks' => if String.leb k k' then k :: ks else k' :: insert_key k ks'
  end.

Definition sort_keys (ks : list string) : list string :=
  fold_right insert_key [] ks.

(** The inner loop of Values.Encode for one key. *)
Definition encode_key (keyEscaped : string) (vs : list string) (buf : string) : string :=
  fold_left (fun buf v =>
               (if (0 <? String.length buf)%nat then buf ++ "&" else buf)
               ++ keyEscaped ++ "=" ++ QueryEscape v) vs buf.

(** url.Values.Encode *)
Definition Encode (v : Values) : string :=
  match v with
  | [] => EmptyString
  | _ =>
      fold_left (fun buf k => encode_key (QueryEscape k) (values_get v k) buf)
                (sort_keys (map fst v)) EmptyString
  end.

(** The query encoder of WithQueryPrefix(prefix, fields...): keys not in
    [fields] deleted (when [fields] is non-empty), then QueryEscape of
    the canonical encoding, prefixed when non-empty. *)
Definition WithQueryPrefix (prefix : string) (fields : list string) (v : Values) : string :=
  let v := if (0 <? length fields)%nat
           then filter (fun kv => contains fields (fst kv)) v else v in
  let s := QueryEscape (Encode v) in
  if negb (String.eqb s "") then prefix ++ s else EmptyString.

(** The bytes QueryEscape of a space-free string is made of. *)
Definition query_safe (c : ascii) : bool :=
  is_alnum c || existsb (Ascii.eqb c) ["-"; "_"; "."; "~"; "%"]%char.

Fixpoint all_chars (f : ascii -> bool) (s : string) : bool :=
  match s with
  | EmptyString => true
  | String c s' => f c && all_chars f s'
  end.

Definition no_space (c : ascii) : bool := negb (Ascii.eqb c " ").

(* ================================================================== *)
(** * Theorems *)

(** ** Helper lemmas *)

Lemma first_match_nil (req : Request) : first_match [] req = Ok ("", empty_policy).
Proof. reflexivity. Qed.

Lemma run_transformers_app (urlstr : string) (code : Z) (ctype : string)
  (ts1 rest : list BodyTransformer) (r w : string) :
  Succeeds urlstr code ctype ts1 r w ->
  run_transformers (ts1 ++ rest)%list urlstr code ctype r
  = (fst (run_transformers rest urlstr code ctype w),
     (ts1 ++ snd (run_transformers rest urlstr code ctype w))%list).
Proof.
  induction 1 as [r | t ts r w0 w' Ht _ IH]; simpl.
  - destruct (run_transformers rest urlstr code ctype r); reflexivity.
  - rewrite Ht, IH. reflexivity.
Qed.

Lemma rt_loop_retry_forced (f i : nat) (c : Z) (Hc : (0 < c)%Z) :
  rt_loop status500_transport (const_clock 5) "get/x" empty_policy
    (Some retry_validator_0) root_req f i true fs500 c
  = (None, fs500, (c + Z.of_nat f)%Z, f).
Proof.
  revert i c Hc. induction f as [| f IH]; intros i c Hc.
  - simpl. rewrite Z.add_0_r. reflexivity.
  - cbn [rt_loop].
    assert (HF : Fetch status500_transport fs500 (const_clock 5 i) "get/x"
                   empty_policy root_req true
                 = (Ok (false, 5%Z, resp500, fs500), true))
      by (vm_compute; reflexivity).
    rewrite HF.
    assert (HV : retry_validator_0 c root_req resp500 5%Z false
                 = ((Retry, None), (c + 1)%Z)).
    { unfold retry_validator_0, SimpleValidate, retry_status_code.
      apply Z.ltb_lt in Hc. rewrite Hc. reflexivity. }
    cbv beta iota zeta. rewrite HV. cbv beta iota zeta.
    change (Retry =? Error)%Z with false. change (Retry =? Retry)%Z with true.
    cbv iota.
    rewrite (IH (S i) (c + 1)%Z ltac:(lia)).
    f_equal. f_equal. lia.
Qed.

Lemma Marshal_Unmarshal_view `{Codecs}
  (Hgz : forall l b, gzip_read (gzip_write l b) = Ok b) :
  forall m buf art, zlib_free m = true -> Marshal m buf = Ok art ->
  Unmarshal m art = stored_view m buf.
Proof.
  fix IH 1.
  intros [l | l d | [c|]] buf art Hz HM; simpl in *.
  - destruct (level_ok l); inversion HM; subst. apply Hgz.
  - discriminate.
  - destruct (bytes_index crlfcrlf buf) as [i|]; [|discriminate].
    rewrite (IH c _ art Hz HM). reflexivity.
  - destruct (bytes_index crlfcrlf buf) as [i|]; [|discriminate].
    inversion HM. reflexivity.
Qed.

Lemma MapFs_read_after_write (fs : MapFs) (k d : string) (fs' : MapFs) :
  fs_write_file fs k d = Ok fs' -> fs_read_file fs' k = Ok d.
Proof.
  simpl. intros Hw. inversion Hw. simpl. rewrite String.eqb_refl. reflexivity.
Qed.

Section SortedLists.
Context {A : Type} (R : A -> A -> Prop).
Local Open Scope list_scope.

Lemma ss_app_inv (X Y : list A) :
  StronglySorted R (X ++ Y) ->
  StronglySorted R X /\ StronglySorted R Y /\ (forall x, In x X -> Forall (R x) Y).
Proof.
  induction X as [|a X IH]; simpl; intros H.
  - split; [constructor | split; [exact H | tauto]].
  - inversion H as [|? ? Hs Hf]; subst.
    destruct (IH Hs) as [HX [HY Hxy]].
    apply Forall_app in Hf. destruct Hf as [HfX HfY].
    split; [constructor; assumption | split; [exact HY |]].
    intros x [<-|Hin]; auto.
Qed.

Lemma ss_app (X Y : list A) :
  StronglySorted R X -> StronglySorted R Y ->
  (forall x, In x X -> Forall (R x) Y) -> StronglySorted R (X ++ Y).
Proof.
  induction X as [|a X IH]; simpl; intros HX HY Hxy; [exact HY |].
  inversion HX as [|? ? Hs Hf]; subst.
  constructor.
  - apply IH; auto.
  - apply Forall_app. split; [exact Hf | apply Hxy; left; reflexivity].
Qed.

Lemma ss_firstn (n : nat) (l : list A) :
  StronglySorted R l -> StronglySorted R (firstn n l).
Proof.
  intros H. rewrite <- (firstn_skipn n l) in H. apply ss_app_inv in H. tauto.
Qed.

Lemma firstn_split (K L : nat) (C : list A) :
  (K <= L)%nat -> firstn L C = firstn K C ++ firstn (L - K) (skipn K C).
Proof.
  revert L C. induction K as [|K IH]; intros L C HKL.
  - simpl. rewrite Nat.sub_0_r. reflexivity.
  - destruct L as [|L]; [lia |]. destruct C as [|c C]; [simpl; rewrite firstn_nil; reflexivity |].
    simpl. rewrite (IH L C ltac:(lia)). reflexivity.
Qed.

Lemma ss_skipn (n : nat) (l : list A) :
  StronglySorted R l -> StronglySorted R (skipn n l).
Proof.
  intros H. rewrite <- (firstn_skipn n l) in H. apply ss_app_inv in H. tauto.
Qed.

Lemma ss_replace_middle (P X Y Q : list A) :
  StronglySorted R (P ++ X ++ Q) -> Permutation X Y -> StronglySorted R Y ->
  StronglySorted R (P ++ Y ++ Q).
Proof.
  intros H Hp HY.
  apply ss_app_inv in H. destruct H as [HP [HXQ HPXQ]].
  apply ss_app_inv in HXQ. destruct HXQ as [_ [HQ HXQ]].
  apply ss_app; [exact HP | apply ss_app; [exact HY | exact HQ |] |].
  - intros y Hy. apply HXQ. apply Permutation_in with Y; [symmetry; exact Hp | exact Hy].
  - intros x Hx. specialize (HPXQ x Hx). apply Forall_app in HPXQ.
    destruct HPXQ as [HfX HfQ]. apply Forall_app. split; [| exact HfQ].
    apply Forall_forall. intros y Hy. rewrite Forall_forall in HfX. apply HfX.
    apply Permutation_in with Y; [symmetry; exact Hp | exact Hy].
Qed.

(** A view [firstn n (skipn o _)] of an array split as [P ++ Z ++ Q]. *)
Lemma view_left (P Z Q : list A) (o n : nat) :
  (o + n <= length P)%nat ->
  firstn n (skipn o (P ++ Z ++ Q)) = firstn n (skipn o P).
Proof.
  intros H. rewrite skipn_app. replace (o - length P)%nat with 0%nat by lia.
  rewrite firstn_app, length_skipn.
  replace (n - (length P - o))%nat with 0%nat by lia.
  rewrite firstn_O, app_nil_r. reflexivity.
Qed.

Lemma view_right (P Z Q : list A) (o n : nat) :
  (length P + length Z <= o)%nat ->
  firstn n (skipn o (P ++ Z ++ Q)) = firstn n (skipn (o - length P - length Z) Q).
Proof.
  intros H. rewrite skipn_app, (skipn_all2 P) by lia. simpl.
  rewrite skipn_app, (skipn_all2 Z) by lia. reflexivity.
Qed.

Lemma view_inside (P Z Q : list A) (o n : nat) :
  (length P <= o)%nat -> (o + n <= length P + length Z)%nat ->
  firstn n (skipn o (P ++ Z ++ Q)) = firstn n (skipn (o - length P) Z).
Proof.
  intros H1 H2. rewrite skipn_app, (skipn_all2 P) by lia. simpl.
  rewrite skipn_app, firstn_app, length_skipn.
  replace (n - (length Z - (o - length P)))%nat with 0%nat by lia.
  rewrite firstn_O, app_nil_r. reflexivity.
Qed.

Lemma view_around (P Z Q : list A) (o n : nat) :
  (o <= length P)%nat -> (length P + length Z <= o + n)%nat ->
  firstn n (skipn o (P ++ Z ++ Q))
  = skipn o P ++ Z ++ firstn (o + n - length P - length Z) Q.
Proof.
  intros H1 H2. rewrite skipn_app. replace (o - length P)%nat with 0%nat by lia.
  simpl. rewrite firstn_app, length_skipn.
  rewrite (firstn_all2 (skipn o P)) by (rewrite length_skipn; lia).
  f_equal. rewrite firstn_app.
  rewrite (firstn_all2 Z) by lia. f_equal. f_equal. lia.
Qed.

End SortedLists.

Lemma prio_le_trans : Relations_1.Transitive prio_le.
Proof. unfold Relations_1.Transitive, prio_le. intros a b c. lia. Qed.

Section SortInPlace.
Variable sort : list BodyTransformer -> list BodyTransformer.
Hypothesis Hperm : forall l, Permutation l (sort l).
Hypothesis Hsorted : forall l, StronglySorted prio_le (sort l).
Local Open Scope list_scope.

(** Sorting cells [o', o'+n') of an array [C] in place: the view
    [o, o+n) is sorted afterwards when it lies inside the sorted range,
    or when it was sorted before and is disjoint from that range or
    contains it. *)
Lemma sort_range_view (C : list BodyTransformer) (o n o' n' : nat)
  (Hfit : (o' + n' <= length C)%nat)
  (Hpre : ((o' <= o)%nat /\ (o + n <= o' + n')%nat)
          \/ (StronglySorted prio_le (firstn n (skipn o C))
              /\ ((o + n <= o')%nat \/ (o' + n' <= o)%nat
                  \/ ((o <= o')%nat /\ (o' + n' <= o + n)%nat)))) :
  StronglySorted prio_le
    (firstn n (skipn o (firstn o' C ++ sort (firstn n' (skipn o' C))
                        ++ skipn (o' + n') C))).
Proof.
  set (P := firstn o' C). set (X := firstn n' (skipn o' C)).
  set (Q := skipn (o' + n') C).
  assert (HC : C = P ++ X ++ Q).
  { unfold P, X, Q. rewrite <- (firstn_skipn o' C) at 1. f_equal.
    rewrite <- (firstn_skipn n' (skipn o' C)) at 1. f_equal.
    rewrite skipn_skipn. f_equal. lia. }
  assert (HP : length P = o') by (unfold P; rewrite length_firstn; lia).
  assert (HX : length X = n')
    by (unfold X; rewrite length_firstn, length_skipn; lia).
  assert (HY : length (sort X) = n')
    by (rewrite <- HX; symmetry; apply Permutation_length, Hperm).
  rewrite HC in Hpre.
  destruct Hpre as [[H1 H2] | [Hs [Hd | [Hd | [H1 H2]]]]].
  - rewrite view_inside by lia. apply ss_firstn, ss_skipn, Hsorted.
  - rewrite view_left by lia. rewrite view_left in Hs by lia. exact Hs.
  - rewrite view_right by lia. rewrite view_right in Hs by lia.
    rewrite HY. rewrite HX in Hs. exact Hs.
  - rewrite view_around by lia. rewrite view_around in Hs by lia.
    rewrite HP, HY. rewrite HP, HX in Hs.
    apply (ss_replace_middle _ _ X); [exact Hs | apply Hperm | apply Hsorted].
Qed.

Lemma sort_in_place_length (st : Store) (sl' : Slice) (a : nat) :
  slice_fits st sl' ->
  length (sort_in_place sort st sl' a) = length (st a).
Proof.
  unfold slice_fits, sort_in_place, store_set. intros Hfit.
  destruct (Nat.eqb (sl_array sl') a) eqn:Ea; [| reflexivity].
  apply Nat.eqb_eq in Ea. subst a.
  rewrite !length_app, <- (Permutation_length (Hperm _)).
  rewrite !length_firstn, !length_skipn. lia.
Qed.

Lemma sort_in_place_fits (st : Store) (sl sl' : Slice) :
  slice_fits st sl' -> slice_fits st sl -> slice_fits (sort_in_place sort st sl') sl.
Proof.
  intros Hf' Hf. unfold slice_fits in *. rewrite sort_in_place_length; assumption.
Qed.

(** Sorting one slice in place keeps sorted every compatible view that
    was sorted, and sorts every view of the same array that lies inside
    the sorted slice. *)
Lemma sort_in_place_view (st : Store) (sl sl' : Slice)
  (Hfit : slice_fits st sl')
  (Hpre : (sl_array sl = sl_array sl' /\ (sl_off sl' <= sl_off sl)%nat
           /\ (sl_off sl + sl_len sl <= sl_off sl' + sl_len sl')%nat)
          \/ (StronglySorted prio_le (slice_view st sl) /\ ranges_compatible sl sl')) :
  StronglySorted prio_le (slice_view (sort_in_place sort st sl') sl).
Proof.
  unfold slice_view, sort_in_place, store_set, slice_fits, ranges_compatible in *.
  destruct (Nat.eqb (sl_array sl') (sl_array sl)) eqn:Ea.
  2:{ apply Nat.eqb_neq in Ea.
      destruct Hpre as [[Heq _] | [Hs _]]; [congruence | exact Hs]. }
  apply Nat.eqb_eq in Ea. rewrite <- Ea in Hpre.
  apply sort_range_view; [exact Hfit |].
  destruct Hpre as [[_ [H1 H2]] | [Hs [Hne | Hc]]]; [left; lia | congruence |].
  destruct Hc as [Hd | [Hd | [[H1 H2] | [H1 H2]]]].
  - right. split; [exact Hs | left; exact Hd].
  - right. split; [exact Hs | right; left; exact Hd].
  - left. lia.
  - right. split; [exact Hs | right; right; lia].
Qed.

Lemma new_sort_keeps_sorted (ms : list RegMatcher) (st : Store) (sl : Slice) :
  (forall sl', In (RSimple sl') ms -> slice_fits st sl' /\ ranges_compatible sl sl') ->
  StronglySorted prio_le (slice_view st sl) ->
  StronglySorted prio_le (slice_view (new_sort sort st ms) sl).
Proof.
  unfold new_sort. revert st. induction ms as [|m ms IH]; simpl; intros st Hall Hs;
    [exact Hs |].
  destruct m as [sl'|].
  - destruct (Hall sl' (or_introl eq_refl)) as [Hf Hc].
    apply IH.
    + intros sl'' Hin. destruct (Hall sl'' (or_intror Hin)) as [Hf'' Hc''].
      split; [apply sort_in_place_fits; assumption | exact Hc''].
    + apply sort_in_place_view; [exact Hf | right; split; assumption].
  - apply IH; [intros sl' Hin; apply Hall; right; exact Hin | exact Hs].
Qed.

Lemma new_sort_sorts (ms : list RegMatcher) (st : Store) (sl : Slice) :
  In (RSimple sl) ms ->
  (forall sl', In (RSimple sl') ms -> slice_fits st sl') ->
  (forall sl1 sl2, In (RSimple sl1) ms -> In (RSimple sl2) ms ->
     ranges_compatible sl1 sl2) ->
  StronglySorted prio_le (slice_view (new_sort sort st ms) sl).
Proof.
  unfold new_sort. revert st. induction ms as [|m ms IH]; simpl; intros st Hin Hfit Hc;
    [contradiction |].
  destruct Hin as [Hm | Hin].
  - subst m. change (fold_left ?f ms ?s) with (new_sort sort s ms).
    apply new_sort_keeps_sorted.
    + intros sl' Hin'. split.
      * apply sort_in_place_fits; apply Hfit; auto.
      * apply Hc; auto.
    + apply sort_in_place_view; [apply Hfit; auto | left; split; [reflexivity | lia]].
  - apply IH; [exact Hin | |].
    + intros sl' Hin'. destruct m as [sl0|].
      * apply sort_in_place_fits; apply Hfit; auto.
      * apply Hfit; auto.
    + intros sl1 sl2 H1 H2. apply Hc; auto.
Qed.

End SortInPlace.

Lemma not_sorted_pair (a b : BodyTransformer) (l : list BodyTransformer) :
  (TransformPriority b < TransformPriority a)%Z -> ~ Sorted prio_le (a :: b :: l).
Proof.
  intros Hlt Hs. inversion Hs as [|? ? _ Hhd]; subst.
  inversion Hhd; subst. unfold prio_le in *. lia.
Qed.

Lemma run_transformers_prefix (ts : list BodyTransformer) (urlstr : string)
  (code : Z) (ctype r : string) :
  exists k, snd (run_transformers ts urlstr code ctype r) = firstn k ts.
Proof.
  revert r. induction ts as [|t ts IH]; intros r; simpl.
  - exists O. reflexivity.
  - destruct (BodyTransform t urlstr code ctype r) as [[w [|]]|e].
    + destruct (IH w) as [k Hk].
      destruct (run_transformers ts urlstr code ctype w) as [res tr] eqn:E.
      simpl in *. exists (S k). simpl. rewrite Hk. reflexivity.
    + exists 1%nat. reflexivity.
    + exists 1%nat. reflexivity.
Qed.

Lemma insertion_sort_perm (l : list BodyTransformer) : Permutation l (insertion_sort l).
Proof.
  assert (Hins : forall t l, Permutation (t :: l) (insert_prio t l)).
  { intros t l0. induction l0 as [|x l0 IH]; simpl; [reflexivity |].
    destruct (TransformPriority t <=? TransformPriority x)%Z; [reflexivity |].
    rewrite perm_swap. constructor. exact IH. }
  induction l as [|x l IH]; simpl; [constructor |].
  rewrite <- Hins. constructor. exact IH.
Qed.

Lemma insertion_sort_sorted (l : list BodyTransformer) :
  StronglySorted prio_le (insertion_sort l).
Proof.
  apply Sorted_StronglySorted; [exact prio_le_trans |].
  assert (Hins : forall t l, Sorted prio_le l -> Sorted prio_le (insert_prio t l)).
  { intros t l0. induction l0 as [|x l0 IH]; simpl; intros Hs.
    - repeat constructor.
    - destruct (Z.leb_spec (TransformPriority t) (TransformPriority x)) as [Hle|Hgt].
      + constructor; [exact Hs | constructor; exact Hle].
      + inversion Hs as [|? ? Hs' Hhd]; subst.
        constructor; [apply IH; exact Hs' |].
        destruct l0 as [|y l0]; simpl.
        * constructor. unfold prio_le. lia.
        * destruct (TransformPriority t <=? TransformPriority y)%Z;
            constructor; [unfold prio_le; lia | inversion Hhd; assumption]. }
  induction l as [|x l IH]; simpl; [constructor |].
  apply Hins. exact IH.
Qed.

Lemma exec_payload_store {FS : Type} `{Fs FS} `{Codecs}
  (transport : Request -> result HttpRes) (fs : FS) (key : string) (p : Policy)
  (req : Request) (payload : string) (fs1 : FS) :
  exec_payload transport fs key p req = Ok (payload, fs1) ->
  (fs1 = fs /\ policy_artifact p payload = Ok EmptyString)
  \/ (exists art fsm, policy_artifact p payload = Ok art /\ art <> EmptyString
        /\ fs_mkdir_all fs (path_dir key) = Ok fsm
        /\ fs_write_file fsm key art = Ok fs1).
Proof.
  unfold exec_payload, policy_artifact.
  destruct (transport req) as [res|e]; [|discriminate].
  destruct (fst (transformAndAppend _ _ _ _ _ _ _)) as [body|e]; [|discriminate].
  destruct (match MarshalUnmarshalerOf p with
            | Some m => Marshal m body
            | None => Ok body
            end) as [art|e] eqn:Eart; [|discriminate].
  destruct (String.length art =? 0)%nat eqn:Elen.
  - intros Hx. injection Hx as -> ->. left. split; [reflexivity |].
    rewrite Eart. destruct art; [reflexivity | discriminate].
  - destruct (fs_mkdir_all fs (path_dir key)) as [fsm|e] eqn:Em; [|discriminate].
    destruct (fs_write_file fsm key art) as [fs2|e] eqn:Ew; [|discriminate].
    intros Hx. injection Hx as -> ->. right. exists art, fsm.
    split; [exact Eart | split; [| auto]].
    intros ->. simpl in Elen. discriminate.
Qed.

Lemma Mod_absent_Stale {FS : Type} `{Fs FS} (fs : FS) (now : Z) (ctx : option Z)
  (key : string) (ttl : Z) (e : error) :
  fs_stat fs key = Err e -> is_not_exist e = true ->
  Mod fs key = Err e /\ Stale fs now ctx key ttl = Ok (true, zero_time).
Proof.
  intros Hs He. unfold Stale, Mod. rewrite Hs, He. auto.
Qed.

Lemma mf_lookup_without (k : string) (l : list (string * (string * Z))) :
  mf_lookup k (mf_without k l) = None.
Proof.
  induction l as [|[k' v] l IH]; simpl; [reflexivity |].
  destruct (String.eqb k k') eqn:E; simpl; [exact IH |].
  rewrite E. exact IH.
Qed.

Lemma MapFs_stat_after_remove (fs : MapFs) (k : string) (fs' : MapFs) :
  fs_remove fs k = Ok fs' -> exists e, fs_stat fs' k = Err e /\ is_not_exist e = true.
Proof.
  simpl. destruct (mf_lookup k (mf_files fs)); [|discriminate].
  intros Hr. injection Hr as <-. simpl. rewrite mf_lookup_without.
  exists (ENotExist k). auto.
Qed.

Lemma string_app_empty_r (s : string) : (s ++ "")%string = s.
Proof. induction s as [|a s IH]; simpl; [reflexivity | rewrite IH; reflexivity]. Qed.

Lemma substring_all (s : string) : substring 0 (String.length s) s = s.
Proof. induction s as [|a s IH]; simpl; [reflexivity | rewrite IH; reflexivity]. Qed.

Lemma drop_app (p r : string) : drop (String.length p) (p ++ r) = r.
Proof.
  unfold drop. induction p as [|a p IH]; simpl.
  - rewrite Nat.sub_0_r. apply substring_all.
  - exact IH.
Qed.

Lemma prefix_app (p r : string) : String.prefix p (p ++ r) = true.
Proof.
  induction p as [|a p IH]; simpl; [destruct r; reflexivity |].
  destruct (Ascii.ascii_dec a a) as [_|n]; [exact IH | contradiction].
Qed.

Lemma truncator_chain (id : nat) (prio : Z) (m : string -> Z -> string -> bool)
  (ts : list BodyTransformer) (buf r urlstr : string) (code : Z) (ct : string) (s : bool) :
  (m urlstr code ct = true ->
   transformAndAppend buf r urlstr code ct s (Truncator id prio m :: ts)
   = (Ok (if s then stripContentLengthHeader buf else buf), [Truncator id prio m]))
  /\ (m urlstr code ct = false ->
   transformAndAppend buf r urlstr code ct s (Truncator id prio m :: ts)
   = (fst (transformAndAppend buf r urlstr code ct s ts),
      Truncator id prio m :: snd (transformAndAppend buf r urlstr code ct s ts))).
Proof.
  unfold transformAndAppend. cbn [run_transformers BodyTransform Truncator].
  split; intros Hm; rewrite Hm.
  - destruct s; rewrite string_app_empty_r; reflexivity.
  - destruct (run_transformers ts urlstr code ct r) as [[b|e] tr]; destruct s; reflexivity.
Qed.

Lemma truncator_exec {FS : Type} `{Fs FS} `{Codecs}
  (id : nat) (prio : Z) (m : string -> Z -> string -> bool) (ts : list BodyTransformer)
  (transport : Request -> result HttpRes) (res : HttpRes) (fs : FS) (key : string)
  (p : Policy) (req : Request)
  (Hbt : BodyTransformers p = Truncator id prio m :: ts)
  (Htr : transport req = Ok res) :
  (m (URLString req) (ResStatus res) (ResContentType res) = true ->
   exec_payload transport fs key p req
   = exec_payload (fun _ => Ok (without_body res)) fs key (with_body_transformers p []) req)
  /\ (m (URLString req) (ResStatus res) (ResContentType res) = false ->
   exec_payload transport fs key p req
   = exec_payload transport fs key (with_body_transformers p ts) req).
Proof.
  unfold exec_payload. rewrite Htr, Hbt.
  cbn [without_body with_body_transformers ResStatus ResContentType Dump RawBody
       BodyTransformers HeaderTransformers MarshalUnmarshalerOf].
  split; intros Hm.
  - rewrite (proj1 (truncator_chain id prio m ts _ (RawBody res) _ _ _ _) Hm).
    unfold transformAndAppend. cbn [run_transformers fst].
    destruct (negb (String.eqb (Method req) "HEAD"));
      rewrite string_app_empty_r; reflexivity.
  - rewrite (proj2 (truncator_chain id prio m ts _ (RawBody res) _ _ _ _) Hm).
    reflexivity.
Qed.

Lemma Mod_absent_Exec_error {FS : Type} `{Fs FS} `{Codecs} {VS : Type}
  (c : Cache) (transport : Request -> result HttpRes) (clock : nat -> Z)
  (v : option (Validator VS)) (fuel : nat) (req : Request) (fs : FS) (vs : VS)
  (key : string) (p : Policy) (e e' : error)
  (Hm : CacheMatch c req = Ok (key, p)) (Hk : key <> "")
  (Habs : fs_stat fs key = Err e) (Hne : is_not_exist e = true)
  (Hexec : exec_payload transport fs key p req = Err e') :
  RoundTrip c transport clock v (S fuel) req fs vs = (Some (Err e'), fs, vs, 1%nat).
Proof.
  destruct (Mod_absent_Stale fs (clock 0%nat) (CtxTTL req) key (TTL p) e Habs Hne)
    as [_ Hst0].
  assert (Hx : Exec transport fs key p req = Err e')
    by (unfold Exec; rewrite Hexec; reflexivity).
  unfold RoundTrip. rewrite Hm. apply String.eqb_neq in Hk. rewrite Hk.
  cbn [rt_loop]. unfold Fetch. rewrite Hst0. simpl. rewrite Hx. reflexivity.
Qed.

Lemma all_chars_app (f : ascii -> bool) (a b : string) :
  all_chars f (a ++ b) = all_chars f a && all_chars f b.
Proof.
  induction a as [|c a IH]; simpl; [reflexivity | rewrite IH, andb_assoc; reflexivity].
Qed.

Lemma upperhex_alnum (n : nat) : (n < 16)%nat -> is_alnum (upperhex n) = true.
Proof.
  intros Hn. do 16 (destruct n as [|n]; [reflexivity |]). lia.
Qed.

Lemma upperhex_digits (c : ascii) :
  is_alnum (upperhex (nat_of_ascii c / 16)) = true
  /\ is_alnum (upperhex (nat_of_ascii c mod 16)) = true.
Proof.
  pose proof (nat_ascii_bounded c) as Hb.
  split; apply upperhex_alnum.
  - apply Nat.Div0.div_lt_upper_bound. lia.
  - apply Nat.mod_upper_bound. lia.
Qed.

Lemma alnum_no_space (c : ascii) : is_alnum c = true -> no_space c = true.
Proof.
  intros H. unfold no_space. destruct (Ascii.eqb c " ") eqn:E; [|reflexivity].
  apply Ascii.eqb_eq in E. subst c. discriminate.
Qed.

Lemma QueryEscape_no_space (s : string) : all_chars no_space (QueryEscape s) = true.
Proof.
  induction s as [|c s IH]; [reflexivity |]. cbn [QueryEscape].
  destruct (Ascii.eqb c " ") eqn:Esp; [cbn [all_chars]; exact IH |].
  destruct (shouldEscape c) eqn:Esc.
  - destruct (upperhex_digits c) as [H1 H2]. cbn [all_chars].
    rewrite (alnum_no_space _ H1), (alnum_no_space _ H2), IH. reflexivity.
  - cbn [all_chars]. unfold no_space at 1. rewrite Esp. exact IH.
Qed.

Lemma QueryEscape_safe (s : string) :
  all_chars no_space s = true -> all_chars query_safe (QueryEscape s) = true.
Proof.
  induction s as [|c s IH]; [reflexivity |]. cbn [QueryEscape all_chars]. intros Hs.
  apply andb_true_iff in Hs as [Hc Hs]. unfold no_space in Hc.
  destruct (Ascii.eqb c " ") eqn:Esp; [discriminate |].
  destruct (shouldEscape c) eqn:Esc.
  - destruct (upperhex_digits c) as [H1 H2]. cbn [all_chars].
    unfold query_safe at 2 3. rewrite H1, H2, (IH Hs). reflexivity.
  - cbn [all_chars]. rewrite (IH Hs), andb_true_r. unfold shouldEscape in Esc.
    unfold query_safe.
    destruct (is_alnum c); [reflexivity |].
    apply negb_false_iff in Esc. cbn [orb].
    cbn [existsb] in Esc |- *.
    destruct (Ascii.eqb c "-"), (Ascii.eqb c "_"), (Ascii.eqb c "."), (Ascii.eqb c "~");
      try reflexivity; discriminate Esc.
Qed.

Lemma QueryEscape_empty (s : string) : QueryEscape s = EmptyString <-> s = EmptyString.
Proof.
  destruct s as [|c s]; simpl; [tauto |].
  split; [| discriminate].
  destruct (Ascii.eqb c " "); [discriminate |]. destruct (shouldEscape c); discriminate.
Qed.

Lemma encode_key_no_space (ke : string) (vs : list string) (buf : string) :
  all_chars no_space ke = true -> all_chars no_space buf = true ->
  all_chars no_space (encode_key ke vs buf) = true.
Proof.
  unfold encode_key. revert buf. induction vs as [|x vs IH]; intros buf Hk Hb; [exact Hb |].
  cbn [fold_left]. apply IH; [exact Hk |].
  rewrite !all_chars_app, Hk, QueryEscape_no_space.
  destruct (0 <? String.length buf)%nat; rewrite ?all_chars_app, Hb; reflexivity.
Qed.

Lemma encode_fold_no_space (v : Values) (ks : list string) (buf : string) :
  all_chars no_space buf = true ->
  all_chars no_space
    (fold_left (fun buf k => encode_key (QueryEscape k) (values_get v k) buf) ks buf) = true.
Proof.
  revert buf. induction ks as [|k ks IH]; intros buf Hb; cbn [fold_left]; [exact Hb |].
  apply IH, encode_key_no_space; [apply QueryEscape_no_space | exact Hb].
Qed.

Lemma Encode_no_space (v : Values) : all_chars no_space (Encode v) = true.
Proof.
  unfold Encode. destruct v as [|kv v']; [reflexivity |].
  apply encode_fold_no_space. reflexivity.
Qed.

Lemma string_app_assoc_helper (a b c : string) :
  (a ++ b ++ c)%string = ((a ++ b) ++ c)%string.
Proof. induction a as [|x a IH]; simpl; [reflexivity | rewrite IH; reflexivity]. Qed.

Lemma app_string_nonempty (a b : string) (c : ascii) : (a ++ String c b)%string <> EmptyString.
Proof. destruct a; discriminate. Qed.

Lemma encode_key_empty (ke : string) (vs : list string) (buf : string) :
  encode_key ke vs buf = EmptyString <-> buf = EmptyString /\ vs = [].
Proof.
  unfold encode_key. revert buf. induction vs as [|x vs IH]; intros buf; cbn [fold_left].
  - tauto.
  - rewrite IH. split; [| intros [_ H]; discriminate H].
    intros [H _]. exfalso. revert H. rewrite string_app_assoc_helper. apply app_string_nonempty.
Qed.

Lemma encode_fold_empty (v : Values) (ks : list string) (buf : string) :
  fold_left (fun buf k => encode_key (QueryEscape k) (values_get v k) buf) ks buf = EmptyString
  <-> buf = EmptyString /\ (forall k, In k ks -> values_get v k = []).
Proof.
  revert buf. induction ks as [|k ks IH]; intros buf; cbn [fold_left].
  - split; [intros H; split; [exact H | intros k []] | tauto].
  - rewrite IH, encode_key_empty. split.
    + intros [[Hb Hk] Hks]. split; [exact Hb |]. intros k' [<- | Hin]; auto.
    + intros [Hb Hall]. split; [split; [exact Hb | apply Hall; left; reflexivity] |].
      intros k' Hin. apply Hall. right. exact Hin.
Qed.

Lemma insert_key_perm (k : string) (ks : list string) : Permutation (insert_key k ks) (k :: ks).
Proof.
  induction ks as [|k' ks IH]; simpl; [reflexivity |].
  destruct (String.leb k k'); [reflexivity |].
  eapply perm_trans; [apply perm_skip, IH | apply perm_swap].
Qed.

Lemma sort_keys_perm (ks : list string) : Permutation (sort_keys ks) ks.
Proof.
  induction ks as [|k ks IH]; simpl; [reflexivity |].
  eapply perm_trans; [apply insert_key_perm | apply perm_skip, IH].
Qed.

Definition key_le (a b : string) : Prop := String.leb a b = true.

Lemma key_le_iff (a b : string) :
  key_le a b <-> a = b \/ OrderedTypeEx.String_as_OT.lt a b.
Proof.
  unfold key_le, String.leb. split.
  - destruct (String.compare a b) eqn:E; intros H; try discriminate.
    + left. exact (proj1 (OrderedTypeEx.String_as_OT.cmp_eq a b) E).
    + right. exact (proj1 (OrderedTypeEx.String_as_OT.cmp_lt a b) E).
  - intros [<- | Hlt].
    + assert (E : String.compare a a = Eq)
        by exact (proj2 (OrderedTypeEx.String_as_OT.cmp_eq a a) eq_refl).
      rewrite E. reflexivity.
    + assert (E : String.compare a b = Lt)
        by exact (proj2 (OrderedTypeEx.String_as_OT.cmp_lt a b) Hlt).
      rewrite E. reflexivity.
Qed.

Lemma key_le_trans (a b c : string) : key_le a b -> key_le b c -> key_le a c.
Proof.
  rewrite !key_le_iff. intros [<- | Hab] [<- | Hbc]; auto.
  right. eapply OrderedTypeEx.String_as_OT.lt_trans; eassumption.
Qed.

Lemma insert_key_sorted (k : string) (ks : list string) :
  StronglySorted key_le ks -> StronglySorted key_le (insert_key k ks).
Proof.
  induction ks as [|k' ks IH]; intros Hs; simpl.
  - repeat constructor.
  - apply StronglySorted_inv in Hs as [Hs Hall].
    destruct (String.leb k k') eqn:E.
    + constructor; [constructor; assumption |]. constructor; [exact E |].
      eapply Forall_impl; [| exact Hall]. intros x Hx. eapply key_le_trans; eassumption.
    + constructor; [apply IH; exact Hs |]. apply Forall_forall. intros x Hx.
      apply (Permutation_in _ (insert_key_perm k ks)) in Hx as [<- | Hx].
      * destruct (String.leb_total k' k) as [H | H]; [exact H | rewrite H in E; discriminate].
      * exact (proj1 (Forall_forall _ _) Hall x Hx).
Qed.

Lemma sort_keys_sorted (ks : list string) : StronglySorted key_le (sort_keys ks).
Proof.
  induction ks as [|k ks IH]; simpl; [constructor | apply insert_key_sorted, IH].
Qed.

Lemma sorted_perm_eq (l1 l2 : list string) :
  StronglySorted key_le l1 -> StronglySorted key_le l2 -> Permutation l1 l2 -> l1 = l2.
Proof.
  revert l2. induction l1 as [|a l1 IH]; intros l2 H1 H2 Hp.
  - symmetry. apply Permutation_nil. exact Hp.
  - destruct l2 as [|b l2].
    + apply Permutation_sym, Permutation_nil in Hp. discriminate.
    + apply StronglySorted_inv in H1 as [H1 Hall1].
      apply StronglySorted_inv in H2 as [H2 Hall2].
      assert (Hab : a = b).
      { pose proof (Permutation_in _ Hp (in_eq a l1)) as Ha.
        pose proof (Permutation_in _ (Permutation_sym Hp) (in_eq b l2)) as Hb.
        destruct Ha as [-> | Ha]; [reflexivity |].
        destruct Hb as [-> | Hb]; [reflexivity |].
        apply String.leb_antisym.
        - exact (proj1 (Forall_forall _ _) Hall1 b Hb).
        - exact (proj1 (Forall_forall _ _) Hall2 a Ha). }
      subst b. f_equal. apply IH; [exact H1 | exact H2 |].
      exact (Permutation_cons_inv Hp).
Qed.

Lemma values_get_In (v : Values) (k : string) (vs : list string) :
  NoDup (map fst v) -> In (k, vs) v -> values_get v k = vs.
Proof.
  induction v as [|[k' vs'] v IH]; simpl; [intros _ [] |].
  intros Hnd [Heq | Hin].
  - injection Heq as -> ->. rewrite String.eqb_refl. reflexivity.
  - inversion Hnd as [|? ? Hnot Hnd']; subst.
    destruct (String.eqb k k') eqn:E.
    + apply String.eqb_eq in E. subst k'. exfalso. apply Hnot.
      exact (in_map fst _ _ Hin).
    + apply IH; assumption.
Qed.

Lemma values_get_notin (v : Values) (k : string) :
  ~ In k (map fst v) -> values_get v k = [].
Proof.
  induction v as [|[k' vs'] v IH]; simpl; [reflexivity |].
  intros Hn. destruct (String.eqb k k') eqn:E.
  - apply String.eqb_eq in E. subst k'. exfalso. apply Hn. left. reflexivity.
  - apply IH. intros H. apply Hn. right. exact H.
Qed.

Lemma values_get_perm (v w : Values) (k : string) :
  NoDup (map fst v) -> Permutation v w -> values_get v k = values_get w k.
Proof.
  intros Hnd Hp.
  assert (Hpm : Permutation (map fst v) (map fst w)) by (apply Permutation_map; exact Hp).
  assert (Hnd' : NoDup (map fst w)) by (eapply Permutation_NoDup; eassumption).
  destruct (in_dec string_dec k (map fst v)) as [Hin | Hnin].
  - apply in_map_iff in Hin as [[k' vs] [Hk Hin]]. simpl in Hk. subst k'.
    rewrite (values_get_In v k vs Hnd Hin).
    rewrite (values_get_In w k vs Hnd' (Permutation_in _ Hp Hin)). reflexivity.
  - rewrite (values_get_notin v k Hnin), values_get_notin; [reflexivity |].
    intros H. apply Hnin. exact (Permutation_in _ (Permutation_sym Hpm) H).
Qed.

Lemma encode_fold_ext (v w : Values) (ks : list string) (buf : string) :
  (forall k, values_get v k = values_get w k) ->
  fold_left (fun buf k => encode_key (QueryEscape k) (values_get v k) buf) ks buf
  = fold_left (fun buf k => encode_key (QueryEscape k) (values_get w k) buf) ks buf.
Proof.
  intros H. revert buf. induction ks as [|k ks IH]; intros buf; cbn [fold_left];
    [reflexivity |]. rewrite H. apply IH.
Qed.

Lemma Encode_perm (v w : Values) :
  NoDup (map fst v) -> Permutation v w -> Encode v = Encode w.
Proof.
  intros Hnd Hp. unfold Encode.
  destruct v as [|kv v'], w as [|kw w'].
  - reflexivity.
  - apply Permutation_nil in Hp. discriminate.
  - apply Permutation_sym, Permutation_nil in Hp. discriminate.
  - rewrite (sorted_perm_eq (sort_keys (map fst (kv :: v'))) (sort_keys (map fst (kw :: w')))).
    + apply encode_fold_ext. intros k. apply values_get_perm; assumption.
    + apply sort_keys_sorted.
    + apply sort_keys_sorted.
    + eapply perm_trans; [apply sort_keys_perm |].
      eapply perm_trans; [apply Permutation_map, Hp |].
      apply Permutation_sym, sort_keys_perm.
Qed.

Lemma Encode_empty (v : Values) :
  NoDup (map fst v) -> (Encode v = EmptyString <-> forall k vs, In (k, vs) v -> vs = []).
Proof.
  intros Hnd. unfold Encode. destruct v as [|kv v'].
  - split; [intros _ k vs [] | reflexivity].
  - rewrite encode_fold_empty. split.
    + intros [_ Hall] k vs Hin. rewrite <- (values_get_In _ k vs Hnd Hin). apply Hall.
      apply (Permutation_in _ (Permutation_sym (sort_keys_perm _))).
      exact (in_map fst _ _ Hin).
    + intros Hall. split; [reflexivity |]. intros k Hk.
      apply (Permutation_in _ (sort_keys_perm _)) in Hk.
      apply in_map_iff in Hk as [[k' vs] [Hk' Hin]]. simpl in Hk'. subst k'.
      rewrite (values_get_In _ k vs Hnd Hin). exact (Hall k vs Hin).
Qed.

Lemma Permutation_filter_bool {A : Type} (f : A -> bool) (l l' : list A) :
  Permutation l l' -> Permutation (filter f l) (filter f l').
Proof.
  induction 1 as [| x l l' _ IH | x y l | l l' l'' _ IH1 _ IH2]; simpl.
  - constructor.
  - destruct (f x); [apply perm_skip |]; exact IH.
  - destruct (f x), (f y); first [apply perm_swap | reflexivity].
  - eapply perm_trans; eassumption.
Qed.

Lemma NoDup_map_filter {A B : Type} (g : A -> B) (f : A -> bool) (l : list A) :
  NoDup (map g l) -> NoDup (map g (filter f l)).
Proof.
  induction l as [|a l IH]; simpl; [auto |]. intros Hnd.
  inversion Hnd as [|? ? Hn Hnd']; subst.
  destruct (f a); simpl; [constructor |]; auto.
  intros Hin. apply Hn. apply in_map_iff in Hin as [x [Hx Hin]].
  apply filter_In in Hin as [Hin _]. rewrite <- Hx. apply in_map. exact Hin.
Qed.

(** ** C10 *)

(** C10: when Match finds no policy (it returns the empty key and no
    error), Evict is not a no-op: it removes the path "" through the
    filesystem and returns exactly what Remove("") returns. *)
Theorem Evict_no_match_removes_empty_key {FS : Type} `{Fs FS}
  (c : Cache) (fs : FS) (req : Request) (p : Policy)
  (Hmatch : CacheMatch c req = Ok ("", p)) :
  Evict c fs req = fs_remove fs "".
Proof. unfold Evict, EvictKey. rewrite Hmatch. reflexivity. Qed.

Lemma Evict_no_match_removes_empty_key_witness :
  CacheMatch get_only_cache post_req = Ok ("", empty_policy) /\
  Evict get_only_cache (fs_with "a" "b" 0 0) post_req = Err (ENotExist "").
Proof.
  split; [reflexivity |].
  rewrite (Evict_no_match_removes_empty_key get_only_cache (fs_with "a" "b" 0 0)
             post_req empty_policy); reflexivity.
Defined.

(** ** C2 *)

(** C2: Stale.  A missing file is stale with no error; any other Stat
    error is returned; a directory is an error; for a regular file with
    effective TTL [t] (the context TTL if present, else the policy TTL)
    the file is stale exactly when [t <> 0] and now is after mtime + t. *)
Theorem Stale_characterisation {FS : Type} `{Fs FS}
  (fs : FS) (now : Z) (ctx : option Z) (key : string) (ttl : Z) :
  (forall e, fs_stat fs key = Err e -> is_not_exist e = true ->
     Stale fs now ctx key ttl = Ok (true, zero_time))
  /\ (forall e, fs_stat fs key = Err e -> is_not_exist e = false ->
     Stale fs now ctx key ttl = Err e)
  /\ (forall fi, fs_stat fs key = Ok fi -> IsDir fi = true ->
     Stale fs now ctx key ttl = Err (EIsDir key))
  /\ (forall fi, fs_stat fs key = Ok fi -> IsDir fi = false ->
     let t := match ctx with Some d => d | None => ttl end in
     exists stale, Stale fs now ctx key ttl = Ok (stale, ModTime fi)
       /\ (stale = true <-> (t <> 0 /\ ModTime fi + t < now)%Z)).
Proof.
  unfold Stale, Mod.
  repeat split.
  - intros e He Hn. rewrite He, Hn. reflexivity.
  - intros e He Hn. rewrite He, Hn. reflexivity.
  - intros fi Hf Hd. rewrite Hf, Hd. reflexivity.
  - intros fi Hf Hd. rewrite Hf, Hd. cbv zeta. eexists. split; [reflexivity |].
    rewrite andb_true_iff, negb_true_iff, Z.eqb_neq, Z.ltb_lt.
    tauto.
Qed.

(** ** C7 *)

(** C7: in any iteration of the RoundTrip loop, a validator answering
    Error with a nil error, or a validity other than Error, Retry and
    Valid, makes RoundTrip return an error and no response. *)
Theorem RoundTrip_rejects_bad_validity {FS : Type} `{Fs FS} `{Codecs} {VS : Type}
  (transport : Request -> result HttpRes) (clock : nat -> Z) (key : string)
  (p : Policy) (v : Validator VS) (req : Request) (fuel i : nat) (force : bool)
  (fs : FS) (vs : VS) (stale : bool) (mtime : Z) (res : Response) (fs' : FS)
  (Hfetch : fst (Fetch transport fs (clock i) key p req force)
            = Ok (stale, mtime, res, fs')) :
  (forall vs', v vs req res mtime stale = ((Error, None), vs') ->
     exists fs2 vs2 n,
       rt_loop transport clock key p (Some v) req (S fuel) i force fs vs
       = (Some (Err EValidityError), fs2, vs2, n))
  /\ (forall validity vs',
       validity <> Error -> validity <> Retry -> validity <> Valid ->
       v vs req res mtime stale = ((validity, None), vs') ->
       exists fs2 vs2 n,
         rt_loop transport clock key p (Some v) req (S fuel) i force fs vs
         = (Some (Err (EValidityUnknown validity)), fs2, vs2, n)).
Proof.
  simpl. destruct (Fetch transport fs (clock i) key p req force) as [r ex].
  simpl in Hfetch. subst r.
  split.
  - intros vs' Hv. rewrite Hv. simpl. eauto.
  - intros validity vs' H1 H2 H3 Hv. rewrite Hv.
    apply Z.eqb_neq in H1, H2, H3. rewrite H1, H2, H3. eauto.
Qed.

Lemma RoundTrip_rejects_bad_validity_witness :
  exists fs2 vs2 n,
    rt_loop (fixed_transport "HTTP/1.1 200 OK" 200 "hi") (const_clock 5) "k"
      empty_policy (Some error_validator) (get_req "https" "example.com" "/")
      1 0 false (fs_with "k" ok_artifact 0 5) tt
    = (Some (Err EValidityError), fs2, vs2, n).
Proof.
  refine (proj1 (RoundTrip_rejects_bad_validity (FS:=MapFs) (VS:=unit)
                  (fixed_transport "HTTP/1.1 200 OK" 200 "hi") (const_clock 5) "k"
                  empty_policy error_validator (get_req "https" "example.com" "/")
                  0 0 false (fs_with "k" ok_artifact 0 5) tt true 0 ok_response
                  (fs_with "k" ok_artifact 0 5) _) tt _).
  all: vm_compute; reflexivity.
Defined.

(** ** C4 *)

(** C4: short-circuit of the body-transformer pipeline.  Once the
    transformers before [t] have all succeeded, if [t] returns
    success=false, the transformers after it are never invoked (the
    invocation trace ends with [t]) and what [t] wrote is the body
    appended to the head; if [t] returns an error, the run fails with
    that error and again nothing after [t] runs. *)
Theorem transformAndAppend_short_circuit (buf r urlstr : string) (code : Z)
  (ctype : string) (strip : bool) (ts1 : list BodyTransformer)
  (t : BodyTransformer) (ts2 : list BodyTransformer) (w_in : string)
  (Hpre : Succeeds urlstr code ctype ts1 r w_in) :
  let head := if strip then stripContentLengthHeader buf else buf in
  (forall w, BodyTransform t urlstr code ctype w_in = Ok (w, false) ->
     transformAndAppend buf r urlstr code ctype strip (ts1 ++ t :: ts2)%list
     = (Ok (head ++ w), (ts1 ++ [t])%list))
  /\ (forall e, BodyTransform t urlstr code ctype w_in = Err e ->
     transformAndAppend buf r urlstr code ctype strip (ts1 ++ t :: ts2)%list
     = (Err e, (ts1 ++ [t])%list)).
Proof.
  intros head. unfold transformAndAppend.
  rewrite (run_transformers_app urlstr code ctype ts1 (t :: ts2) r w_in Hpre).
  split.
  - intros w Hw. simpl. rewrite Hw. simpl.
    subst head. destruct strip; reflexivity.
  - intros e He. simpl. rewrite He. reflexivity.
Qed.

Lemma transformAndAppend_short_circuit_witness :
  transformAndAppend "HEAD" "body" "u" 200 "text/plain" false
    ([bt_pass 1 0] ++ bt_stop 2 10 "short" :: [bt_fail 3 20])%list
  = (Ok ("HEAD" ++ "short"), ([bt_pass 1 0] ++ [bt_stop 2 10 "short"])%list).
Proof.
  refine (proj1 (transformAndAppend_short_circuit "HEAD" "body" "u" 200 "text/plain"
                   false [bt_pass 1 0] (bt_stop 2 10 "short") [bt_fail 3 20] "body" _)
                "short" _).
  - eapply Succeeds_cons; [reflexivity | apply Succeeds_nil].
  - reflexivity.
Defined.

(** ** C8 *)

(** C8: RoundTrip binds the flag Fetch returns as [stale] and passes it
    as the stale argument of Validate, but that flag is the negation of
    the staleness decision: it is [negb (stale || force)], so it is
    false when the artifact was absent or past its TTL and a fresh Exec
    ran, and true exactly when the response is the one Load read from
    the stored artifact (with the stored mtime and the store unchanged). *)
Theorem Fetch_flag_is_cache_hit {FS : Type} `{Fs FS} `{Codecs} {VS : Type}
  (transport : Request -> result HttpRes) (clock : nat -> Z) (key : string)
  (p : Policy) (req : Request) (fuel i : nat) (force : bool) (fs : FS)
  (s : bool) (m : Z)
  (Hstale : Stale fs (clock i) (CtxTTL req) key (TTL p) = Ok (s, m))
  (flag : bool) (mtime : Z) (res : Response) (fs' : FS)
  (Hfetch : fst (Fetch transport fs (clock i) key p req force)
            = Ok (flag, mtime, res, fs')) :
  flag = negb (s || force)
  /\ (flag = true -> Load fs key p = Ok res /\ mtime = m /\ fs' = fs)
  /\ (forall (v : Validator VS) vs vs',
        v vs req res mtime (negb (s || force)) = ((Valid, None), vs') ->
        exists n,
          rt_loop transport clock key p (Some v) req (S fuel) i force fs vs
          = (Some (Ok res), fs', vs', n)).
Proof.
  assert (Hf : flag = negb (s || force)
               /\ (flag = true -> Load fs key p = Ok res /\ mtime = m /\ fs' = fs)).
  { unfold Fetch in Hfetch. rewrite Hstale in Hfetch.
    destruct (s || force) eqn:Esf; simpl.
    - destruct (Exec transport fs key p req) as [[r1 f1]|e]; simpl in Hfetch;
        [|discriminate].
      destruct (Mod f1 key); simpl in Hfetch; [|discriminate].
      inversion Hfetch; subst. split; [reflexivity | discriminate].
    - destruct (Load fs key p) eqn:El; simpl in Hfetch; [|discriminate].
      inversion Hfetch; subst. auto. }
  destruct Hf as [Hflag Hload]. split; [exact Hflag | split; [exact Hload |]].
  intros v vs vs' Hv. simpl.
  destruct (Fetch transport fs (clock i) key p req force) as [r ex].
  simpl in Hfetch. subst r. rewrite <- Hflag in Hv. rewrite Hv. simpl. eauto.
Qed.

Lemma Fetch_flag_is_cache_hit_witness :
  Load (fs_with "k" ok_artifact 0 5) "k" empty_policy = Ok ok_response.
Proof.
  refine (proj1 (proj1 (proj2
    (Fetch_flag_is_cache_hit (FS:=MapFs) (VS:=unit)
       (fixed_transport "HTTP/1.1 200 OK" 200 "hi") (const_clock 5) "k"
       empty_policy (get_req "https" "example.com" "/") 0 0 false
       (fs_with "k" ok_artifact 0 5) false 0 _ true 0 ok_response
       (fs_with "k" ok_artifact 0 5) _)) eq_refl)).
  all: vm_compute; reflexivity.
Defined.

(** C8 failing input: with no stored artifact the staleness decision
    is true and RoundTrip performs a fresh Exec, yet the validator is
    handed false as its stale argument. *)
Lemma Fetch_flag_counterexample :
  Stale (empty_fs 5) 5 None "k" 0 = Ok (true, zero_time)
  /\ (let '(_, _, seen, n) :=
        rt_loop (fixed_transport "HTTP/1.1 200 OK" 200 "hi") (const_clock 5) "k"
          empty_policy (Some recording_validator)
          (get_req "https" "example.com" "/") 1 0 false (empty_fs 5) []
      in (seen, n)) = ([false], 1%nat).
Proof. split; vm_compute; reflexivity. Qed.

(** ** C9 *)

(** C9: the Strip rewriter is not total.  stripHeaders
    concatenates the name pattern into the regexp without grouping it, so
    the name pattern "|" compiles successfully to a regexp whose first
    alternative is a bare CRLF; on the two-byte buffer CRLF that
    alternative matches, ReplaceAll writes CRLF back in its place, and the
    repeat-while-match loop never leaves: for every bound on the number
    of passes, the loop is still running when the bound is reached. *)
Theorem stripHeaders_bar_never_terminates :
  exists f, stripHeaders ["|"] = Some f /\ forall fuel, f fuel crlf = None.
Proof.
  unfold stripHeaders.
  destruct (compileHeaderRegexps ":.+?\r\n" ["|"]) as [rs|] eqn:E;
    [| vm_compute in E; discriminate].
  vm_compute in E. injection E as <-.
  eexists; split; [reflexivity |].
  intros fuel. simpl.
  match goal with |- context [strip_one fuel ?x crlf] => set (r := x) end.
  assert (Hm : re_match r crlf = true) by (vm_compute; reflexivity).
  assert (Hr : replace_all r crlf crlf = crlf) by (vm_compute; reflexivity).
  assert (Hs : strip_one fuel r crlf = None).
  { induction fuel as [| f IH]; [reflexivity |].
    cbn [strip_one]. rewrite Hm, Hr. exact IH. }
  rewrite Hs. reflexivity.
Qed.

(** ** C6 *)

(** C6: the status-code-retry validator does not bound the
    number of fetches.  WithRetryStatusCode tests [retries < count], the
    inverse of "retry while fewer than N retries were made", and the
    count of its SimpleValidator is never reset between RoundTrips.
    With one retry allowed and none made, a 500 is accepted (Valid) at
    once; and with WithRetryStatusCode(0, 200) against an upstream that
    always answers 500, a first RoundTrip on an empty store fetches once
    and returns the 500, after which every later RoundTrip loads it, is
    told to Retry, and keeps calling Exec: given [S fuel] iterations it
    makes [fuel] Exec calls and is still retrying when they run out. *)
Theorem RoundTrip_retry_validator_unbounded :
  SimpleValidate (retry_status_code 1 [200%Z]) 0%Z root_req resp500 0%Z true
    = ((Valid, None), 1%Z)
  /\ RoundTrip get_only_cache status500_transport (const_clock 5)
       (Some retry_validator_0) 1 root_req (empty_fs 5) 0%Z
     = (Some (Ok (Cached resp500)), fs500, 1%Z, 1%nat)
  /\ forall fuel,
       RoundTrip get_only_cache status500_transport (const_clock 5)
         (Some retry_validator_0) (S fuel) root_req fs500 1%Z
       = (None, fs500, (1 + Z.of_nat (S fuel))%Z, fuel).
Proof.
  split; [reflexivity |]. split; [vm_compute; reflexivity |].
  intros fuel.
  assert (HM : CacheMatch get_only_cache root_req = Ok ("get/x", empty_policy))
    by (vm_compute; reflexivity).
  unfold RoundTrip. rewrite HM. cbv beta iota zeta.
  change (String.eqb "get/x" "") with false. cbv iota.
  cbn [rt_loop].
  assert (HF : Fetch status500_transport fs500 (const_clock 5 0) "get/x"
                 empty_policy root_req false
               = (Ok (true, 5%Z, resp500, fs500), false))
    by (vm_compute; reflexivity).
  rewrite HF.
  assert (HV : retry_validator_0 1%Z root_req resp500 5%Z true
               = ((Retry, None), 2%Z)) by reflexivity.
  cbv beta iota zeta. rewrite HV. cbv beta iota zeta.
  change (Retry =? Error)%Z with false. change (Retry =? Retry)%Z with true.
  cbv iota.
  rewrite (rt_loop_retry_forced fuel 1 2 ltac:(lia)).
  cbn [option_map]. change (0 + fuel)%nat with fuel.
  replace (2 + Z.of_nat fuel)%Z with (1 + Z.of_nat (S fuel))%Z by lia.
  reflexivity.
Qed.

(** ** C3 *)

(** C3: when the method glob, the host regexp and the path
    regexp all match, the key is the template with {{method}} (lower
    case), the named host and path captures and {{query}} substituted,
    then extended with the index token if it is empty or ends in '/',
    then with runs of '/' collapsed and one trailing '/' trimmed, and
    finally passed through the long-path handler when one is set; the
    policy is the matcher's. *)
Theorem SimpleMatch_key_construction (m : SimpleMatcher) (req : Request)
  (h p : list string)
  (Hmethod : MethodMatch m (Method req) = true)
  (Hhost : HostFind m (Scheme req ++ "://" ++ Host req) = Some h)
  (Hpath : PathFind m (Path req) = Some p) :
  SimpleMatch m req
  = Ok (apply_long_path (longPathHandler m)
          (trim_suffix "/"
             (collapse_slashes
                (append_index (indexPath m)
                   (Replace (key_pairs m req h p) (KeyTemplate m))))),
        MatcherPolicy m).
Proof.
  unfold SimpleMatch. rewrite Hmethod, Hhost, Hpath. simpl.
  unfold apply_long_path, collapse_slashes, append_index. reflexivity.
Qed.

Lemma SimpleMatch_key_construction_witness :
  SimpleMatch dir_matcher root_req = Ok ("get/?index", empty_policy).
Proof.
  refine (eq_trans (SimpleMatch_key_construction dir_matcher root_req
                      ["https://example.com"] ["/"] _ _ _) _).
  all: vm_compute; reflexivity.
Defined.

(** C3 counterexample: for the template "{{method}}/" the code appends
    the index token before trimming the slash and yields "get/?index",
    while the stated order trims first and yields "get". *)
Lemma SimpleMatch_order_counterexample :
  SimpleMatch dir_matcher root_req = Ok ("get/?index", empty_policy)
  /\ SimpleMatch_spec_order dir_matcher root_req = Ok ("get", empty_policy).
Proof. split; vm_compute; reflexivity. Qed.

(** ** C1 *)

(** C1: when Exec returns a payload and stores a non-empty
    artifact at [key] under a policy whose marshaler has no zlib stage
    (none, gzip, or flat with such a chain), a following Load of [key]
    under the same policy reads back the stream [policy_view p payload]:
    the payload itself with no marshaler or with gzip, so Load parses it
    to the response Exec returned; with the flat form, the fixed head
    "HTTP/1.1 200 OK" followed by the bytes after the payload's first
    blank line, the original head being dropped by design.  Assumed of
    the environment: a file reads back what was written, and gzip reads
    back what it wrote. *)
Theorem Exec_Load_roundtrip {FS : Type} `{Fs FS} `{Codecs}
  (Hgz : forall l b, gzip_read (gzip_write l b) = Ok b)
  (Hfs : forall fs k d fs', fs_write_file fs k d = Ok fs' -> fs_read_file fs' k = Ok d)
  (transport : Request -> result HttpRes) (fs : FS) (key : string) (p : Policy)
  (req : Request) (payload : string) (fs' : FS)
  (Hzf : match MarshalUnmarshalerOf p with
         | Some m => zlib_free m = true
         | None => True
         end)
  (Hexec : exec_payload transport fs key p req = Ok (payload, fs'))
  (Hart : exists art, policy_artifact p payload = Ok art /\ art <> EmptyString) :
  load_stream fs' key p = policy_view p payload
  /\ (match MarshalUnmarshalerOf p with
      | None | Some (GzipMarshalUnmarshaler _) => True
      | _ => False
      end ->
      Load fs' key p = ReadResponse payload).
Proof.
  destruct Hart as [art0 [Hart0 Hne]].
  unfold exec_payload in Hexec.
  destruct (transport req) as [res|e]; [|discriminate].
  destruct (fst (transformAndAppend _ _ _ _ _ _ _)) as [body|e]; [|discriminate].
  destruct (match MarshalUnmarshalerOf p with
            | Some m => Marshal m body
            | None => Ok body
            end) as [art|e] eqn:Eart; [|discriminate].
  destruct (String.length art =? 0)%nat eqn:Elen.
  - injection Hexec as -> ->.
    unfold policy_artifact in Hart0. rewrite Hart0 in Eart.
    injection Eart as Ea. subst art0.
    destruct art; [contradiction | discriminate].
  - destruct (fs_mkdir_all fs (path_dir key)) as [fs1|e]; [|discriminate].
    destruct (fs_write_file fs1 key art) as [fs2|e] eqn:Ew; [|discriminate].
    injection Hexec as -> ->.
    assert (Hls : load_stream fs' key p = policy_view p payload).
    { unfold load_stream, policy_view. rewrite (Hfs _ _ _ _ Ew).
      destruct (MarshalUnmarshalerOf p) as [m|].
      - exact (Marshal_Unmarshal_view Hgz m payload art Hzf Eart).
      - injection Eart as ->. reflexivity. }
    split; [exact Hls |].
    intros Hm. unfold Load. rewrite Hls. unfold policy_view.
    destruct (MarshalUnmarshalerOf p) as [[l|l d|c]|]; try contradiction; reflexivity.
Qed.

Lemma Exec_Load_roundtrip_witness :
  load_stream {| mf_files := [("k", ("gone", 5%Z))]; mf_now := 5 |} "k" flat_policy
  = policy_view flat_policy payload404.
Proof.
  refine (proj1 (Exec_Load_roundtrip (FS:=MapFs) _ MapFs_read_after_write
                   status404_transport (empty_fs 5) "k" flat_policy root_req
                   payload404 {| mf_files := [("k", ("gone", 5%Z))]; mf_now := 5 |}
                   _ _ _)).
  - intros l b. reflexivity.
  - reflexivity.
  - vm_compute. reflexivity.
  - exists "gone". split; [vm_compute; reflexivity | discriminate].
Defined.

(** C1 counterexample: under the flat marshaler a 404 passes through
    Exec as a 404, but Load of the stored artifact gives a 200. *)
Lemma Exec_Load_flat_counterexample :
  match Exec status404_transport (empty_fs 5) "k" flat_policy root_req with
  | Ok (r1, fs') =>
      (StatusCode r1,
       match Load fs' "k" flat_policy with Ok r2 => StatusCode r2 | Err _ => 0%Z end)
  | Err _ => (0%Z, 0%Z)
  end = (404%Z, 200%Z).
Proof. vm_compute. reflexivity. Qed.

(** ** C5 *)

(** C5: for any sort.Slice that returns a permutation sorted
    by TransformPriority, after New every SimpleMatcher it visited
    (user matchers and the default matcher) has a BodyTransformers slice
    sorted ascending by priority, provided the slices lie within their
    arrays and any two slices on one backing array cover disjoint or
    nested ranges of cells (as with the shared prefix the append in
    SimpleMatcher.apply produces); and every later write-path run over
    such a slice invokes its transformers in ascending priority order. *)
Theorem New_sorts_simple_matchers (sort : list BodyTransformer -> list BodyTransformer)
  (Hperm : forall l, Permutation l (sort l))
  (Hsorted : forall l, Sorted prio_le (sort l))
  (st : Store) (ms : list RegMatcher) (sl : Slice)
  (Hin : In (RSimple sl) ms)
  (Hfit : forall sl', In (RSimple sl') ms -> slice_fits st sl')
  (Hcompat : forall sl1 sl2, In (RSimple sl1) ms -> In (RSimple sl2) ms ->
               ranges_compatible sl1 sl2) :
  let ts := policy_transformers (new_sort sort st ms) (RSimple sl) in
  Sorted prio_le ts
  /\ (forall urlstr code ctype r,
        Sorted prio_le (snd (run_transformers ts urlstr code ctype r))).
Proof.
  assert (Hss : forall l, StronglySorted prio_le (sort l)).
  { intros l. apply Sorted_StronglySorted; [exact prio_le_trans | apply Hsorted]. }
  intros ts.
  assert (Hts : StronglySorted prio_le ts) by (apply new_sort_sorts; auto).
  split; [apply StronglySorted_Sorted; exact Hts |].
  intros urlstr code ctype r.
  destruct (run_transformers_prefix ts urlstr code ctype r) as [k ->].
  apply StronglySorted_Sorted, ss_firstn, Hts.
Qed.

Lemma New_sorts_simple_matchers_witness :
  Sorted prio_le
    (policy_transformers
       (new_sort insertion_sort
          (fun _ => [bt_pass 1 20; bt_pass 2 10; bt_pass 3 30; bt_pass 4 5])
          [RSimple {| sl_array := 0; sl_off := 0; sl_len := 2 |};
           RSimple {| sl_array := 0; sl_off := 0; sl_len := 3 |};
           RSimple {| sl_array := 0; sl_off := 3; sl_len := 1 |}])
       (RSimple {| sl_array := 0; sl_off := 0; sl_len := 2 |})).
Proof.
  refine (proj1 (New_sorts_simple_matchers insertion_sort insertion_sort_perm _
                   (fun _ => [bt_pass 1 20; bt_pass 2 10; bt_pass 3 30; bt_pass 4 5])
                   [RSimple {| sl_array := 0; sl_off := 0; sl_len := 2 |};
                    RSimple {| sl_array := 0; sl_off := 0; sl_len := 3 |};
                    RSimple {| sl_array := 0; sl_off := 3; sl_len := 1 |}]
                   {| sl_array := 0; sl_off := 0; sl_len := 2 |} _ _ _)).
  - intros l. apply StronglySorted_Sorted, insertion_sort_sorted.
  - simpl. left. reflexivity.
  - intros sl' [H|[H|[H|[]]]]; injection H as <-; unfold slice_fits; simpl; lia.
  - intros sl1 sl2 [H1|[H1|[H1|[]]]] [H2|[H2|[H2|[]]]];
      injection H1 as <-; injection H2 as <-;
      unfold ranges_compatible; simpl; lia.
Defined.

(** C5 counterexample: sub-slices of one array that overlap only
    partially are not both sorted.  With ts = [p5; p6; p1], the slices
    ts[0:2] and ts[1:3] given to two matchers through WithBodyTransformers
    leave the first with priorities [5; 1], and a run over it invokes
    priority 5 before priority 1.  Also, a Matcher given through
    WithMatchers that is not a SimpleMatcher keeps its transformers in
    insertion order. *)
Lemma New_sort_counterexample :
  let arr := fun _ : nat => [bt_pass 1 5; bt_pass 2 6; bt_pass 3 1] in
  let s1 := {| sl_array := 0; sl_off := 0; sl_len := 2 |} in
  let s2 := {| sl_array := 0; sl_off := 1; sl_len := 2 |} in
  let ts := policy_transformers (new_sort insertion_sort arr [RSimple s1; RSimple s2])
              (RSimple s1) in
  let bts := [bt_pass 1 2; bt_pass 2 1] in
  map TransformPriority ts = [5; 1]%Z
  /\ snd (run_transformers ts "u" 200 "text/plain" "b") = ts
  /\ ~ Sorted prio_le ts
  /\ policy_transformers (new_sort insertion_sort empty_store [ROther bts]) (ROther bts) = bts
  /\ snd (run_transformers bts "u" 200 "text/plain" "b") = bts
  /\ ~ Sorted prio_le bts.
Proof.
  intros arr s1 s2 ts bts.
  assert (Hts : ts = [bt_pass 1 5; bt_pass 3 1]) by (vm_compute; reflexivity).
  rewrite Hts.
  split; [reflexivity | split; [reflexivity | split]];
    [| split; [reflexivity | split; [reflexivity |]]];
    apply not_sorted_pair; vm_compute; reflexivity.
Qed.

(* ================================================================== *)
(** * Further properties of the code *)

(** Cache.Match consults the user matchers in order and then the default
    matcher (unless WithNoDefault): the first matcher giving a non-empty
    key decides the key and policy, and an error from a matcher consulted
    before it aborts the match with that error. *)
Theorem CacheMatch_first_nonempty (c : Cache) (req : Request)
  (ms1 : list Matcher) (m : Matcher) (ms2 : list Matcher)
  (Hms : (matchers c ++ (if noDefault c then [] else [MSimple (matcher c)]))%list
         = (ms1 ++ m :: ms2)%list)
  (Hbefore : Forall (fun m' => exists p', MatcherMatch m' req = Ok ("", p')) ms1) :
  (forall key p, key <> "" -> MatcherMatch m req = Ok (key, p) ->
     CacheMatch c req = Ok (key, p))
  /\ (forall e, MatcherMatch m req = Err e -> CacheMatch c req = Err e).
Proof.
  unfold CacheMatch. rewrite Hms. clear Hms.
  induction Hbefore as [| m' ms1' [p' Hm'] _ IH]; simpl.
  - split.
    + intros key p Hk Hm. rewrite Hm. apply String.eqb_neq in Hk. rewrite Hk. reflexivity.
    + intros e Hm. rewrite Hm. reflexivity.
  - rewrite Hm'. simpl. exact IH.
Qed.

Lemma CacheMatch_first_nonempty_witness :
  CacheMatch {| matchers := [MOther (fun _ => Ok ("", empty_policy));
                             MOther (fun _ => Ok ("user/key", flat_policy))];
                matcher := matcher get_only_cache; noDefault := false |} root_req
  = Ok ("user/key", flat_policy).
Proof.
  refine (proj1 (CacheMatch_first_nonempty
                   {| matchers := [MOther (fun _ => Ok ("", empty_policy));
                                   MOther (fun _ => Ok ("user/key", flat_policy))];
                      matcher := matcher get_only_cache; noDefault := false |} root_req
                   [MOther (fun _ => Ok ("", empty_policy))]
                   (MOther (fun _ => Ok ("user/key", flat_policy)))
                   [MSimple (matcher get_only_cache)] _ _)
                "user/key" flat_policy _ _).
  - reflexivity.
  - constructor; [exists empty_policy; reflexivity | constructor].
  - discriminate.
  - reflexivity.
Defined.

(** A response RoundTrip fetched for an absent key is served by the next
    RoundTrip from the store while it is fresh: with no validator and no
    marshaler or gzip, the first RoundTrip calls Exec once, and a second
    one at a time within the TTL (or with TTL 0) returns the same
    response without calling the transport and without changing the
    store.  Assumed of the environment: a file reads back what was
    written, and gzip reads back what it wrote. *)
Theorem RoundTrip_serves_stored_response {FS : Type} `{Fs FS} `{Codecs} {VS : Type}
  (Hgz : forall l b, gzip_read (gzip_write l b) = Ok b)
  (Hread : forall fs k d fs', fs_write_file fs k d = Ok fs' -> fs_read_file fs' k = Ok d)
  (c : Cache) (transport transport' : Request -> result HttpRes)
  (clock clock' : nat -> Z) (fuel fuel' : nat) (req : Request)
  (fs fs1 : FS) (vs vs1 : VS) (key : string) (p : Policy) (r1 : Response)
  (n1 : nat) (e : error)
  (Hm : CacheMatch c req = Ok (key, p)) (Hk : key <> "")
  (Hmu : MarshalUnmarshalerOf p = None
         \/ exists l, MarshalUnmarshalerOf p = Some (GzipMarshalUnmarshaler l))
  (Habs : fs_stat fs key = Err e) (Hne : is_not_exist e = true)
  (Hfirst : RoundTrip c transport clock None (S fuel) req fs vs
            = (Some (Ok (Cached r1)), fs1, vs1, n1))
  (Hfresh : forall mtime, Mod fs1 key = Ok mtime ->
            let t := match CtxTTL req with Some d => d | None => TTL p end in
            t = 0%Z \/ (clock' 0%nat <= mtime + t)%Z) :
  n1 = 1%nat /\ vs1 = vs
  /\ RoundTrip c transport' clock' None (S fuel') req fs1 vs1
     = (Some (Ok (Cached r1)), fs1, vs1, 0%nat).
Proof.
  assert (Hkey : String.eqb key "" = false) by (apply String.eqb_neq; exact Hk).
  destruct (Mod_absent_Stale fs (clock 0%nat) (CtxTTL req) key (TTL p) e Habs Hne)
    as [Hmod0 Hst0].
  unfold RoundTrip in Hfirst. rewrite Hm, Hkey in Hfirst.
  cbn [rt_loop] in Hfirst. unfold Fetch in Hfirst. rewrite Hst0 in Hfirst.
  simpl in Hfirst.
  destruct (Exec transport fs key p req) as [[res fs2]|e2] eqn:Eexec;
    [| simpl in Hfirst; discriminate].
  destruct (Mod fs2 key) as [mtime|e3] eqn:Emod; [| simpl in Hfirst; discriminate].
  simpl in Hfirst. injection Hfirst as Hr Hf Hv Hn. subst res fs1 vs1 n1.
  split; [reflexivity | split; [reflexivity |]].
  unfold Exec in Eexec.
  destruct (exec_payload transport fs key p req) as [[payload fs3]|e4] eqn:Epay;
    [| discriminate].
  destruct (ReadResponse payload) as [r|e5] eqn:Erd; [| discriminate].
  injection Eexec as -> ->.
  destruct (exec_payload_store transport fs key p req payload fs2 Epay)
    as [[-> _] | [art [fsm [Hart [_ [_ Hw]]]]]].
  { rewrite Hmod0 in Emod. discriminate. }
  assert (Hload : Load fs2 key p = Ok r1).
  { unfold Load, load_stream. rewrite (Hread _ _ _ _ Hw).
    unfold policy_artifact in Hart.
    destruct Hmu as [Hn | [l Hg]].
    - rewrite Hn in Hart |- *. injection Hart as <-. exact Erd.
    - rewrite Hg in Hart |- *. simpl in Hart.
      destruct (level_ok l); [| discriminate]. injection Hart as <-.
      simpl. rewrite Hgz. exact Erd. }
  assert (Hst : Stale fs2 (clock' 0%nat) (CtxTTL req) key (TTL p) = Ok (false, mtime)).
  { unfold Stale. rewrite Emod. f_equal. f_equal.
    destruct (Hfresh mtime Emod) as [Ht | Ht];
      destruct (CtxTTL req) as [d|]; simpl in Ht |- *.
    - rewrite Ht. reflexivity.
    - rewrite Ht. reflexivity.
    - destruct (d =? 0)%Z; [reflexivity |]. simpl. apply Z.ltb_ge. lia.
    - destruct (TTL p =? 0)%Z; [reflexivity |]. simpl. apply Z.ltb_ge. lia. }
  unfold RoundTrip. rewrite Hm, Hkey. cbn [rt_loop]. unfold Fetch.
  rewrite Hst. simpl. rewrite Hload. reflexivity.
Qed.

Lemma RoundTrip_serves_stored_response_witness :
  RoundTrip get_only_cache (fun _ => Err (EOther "offline")) (const_clock 1000)
    (@None (Validator unit)) 1 root_req fs_hi tt
  = (Some (Ok (Cached hi_response)), fs_hi, tt, 0%nat).
Proof.
  refine (proj2 (proj2 (RoundTrip_serves_stored_response (FS:=MapFs) (VS:=unit)
            _ MapFs_read_after_write get_only_cache
            (fixed_transport "HTTP/1.1 200 OK" 200 "hi") (fun _ => Err (EOther "offline"))
            (const_clock 5) (const_clock 1000) 0 0 root_req (empty_fs 5) fs_hi tt tt
            "get/x" empty_policy hi_response 1 (ENotExist "get/x")
            _ _ _ _ _ _ _))).
  - intros l b. reflexivity.
  - vm_compute. reflexivity.
  - discriminate.
  - left. reflexivity.
  - reflexivity.
  - reflexivity.
  - vm_compute. reflexivity.
  - intros mtime _. left. reflexivity.
Defined.

(** After a successful Evict, Cached reports the request as not cached
    (at any time).  Assumed of the environment: a removed path no longer
    exists. *)
Theorem Evict_then_not_Cached {FS : Type} `{Fs FS}
  (Hrm : forall fs k fs', fs_remove fs k = Ok fs' ->
         exists e, fs_stat fs' k = Err e /\ is_not_exist e = true)
  (c : Cache) (fs fs' : FS) (req : Request) (now : Z)
  (Hev : Evict c fs req = Ok fs') :
  Cache_Cached c fs' now req = Ok false.
Proof.
  unfold Evict, EvictKey in Hev. unfold Cache_Cached.
  destruct (CacheMatch c req) as [[key p]|e]; [| discriminate].
  destruct (Hrm _ _ _ Hev) as [e [Hs He]].
  destruct (Mod_absent_Stale fs' now (CtxTTL req) key (TTL p) e Hs He) as [_ ->].
  reflexivity.
Qed.

Lemma Evict_then_not_Cached_witness :
  Cache_Cached get_only_cache {| mf_files := []; mf_now := 5 |} 7 root_req = Ok false.
Proof.
  exact (Evict_then_not_Cached MapFs_stat_after_remove get_only_cache fs_hi
           {| mf_files := []; mf_now := 5 |} root_req 7 eq_refl).
Defined.

(** When the key is absent and Exec produces an empty artifact (under
    flat storage, a response with an empty body), nothing is stored, the
    Mod that Fetch makes after Exec fails, and RoundTrip returns that
    not-exist error instead of the response, after one Exec. *)
Theorem RoundTrip_empty_artifact_fails {FS : Type} `{Fs FS} `{Codecs} {VS : Type}
  (c : Cache) (transport : Request -> result HttpRes) (clock : nat -> Z)
  (v : option (Validator VS)) (fuel : nat) (req : Request) (fs : FS) (vs : VS)
  (key : string) (p : Policy) (e : error) (payload : string) (fs1 : FS)
  (Hm : CacheMatch c req = Ok (key, p)) (Hk : key <> "")
  (Habs : fs_stat fs key = Err e) (Hne : is_not_exist e = true)
  (Hexec : exec_payload transport fs key p req = Ok (payload, fs1))
  (Hres : exists r, ReadResponse payload = Ok r)
  (Hempty : policy_artifact p payload = Ok EmptyString) :
  RoundTrip c transport clock v (S fuel) req fs vs = (Some (Err e), fs, vs, 1%nat).
Proof.
  destruct Hres as [r Hr].
  destruct (Mod_absent_Stale fs (clock 0%nat) (CtxTTL req) key (TTL p) e Habs Hne)
    as [Hmod0 Hst0].
  assert (Hfs : fs1 = fs).
  { destruct (exec_payload_store transport fs key p req payload fs1 Hexec)
      as [[-> _] | [art [fsm [Hart [Hne' _]]]]]; [reflexivity |].
    rewrite Hempty in Hart. injection Hart as Ha. subst art. contradiction. }
  subst fs1.
  assert (Hx : Exec transport fs key p req = Ok (r, fs))
    by (unfold Exec; rewrite Hexec, Hr; reflexivity).
  unfold RoundTrip. rewrite Hm. apply String.eqb_neq in Hk. rewrite Hk.
  cbn [rt_loop]. unfold Fetch. rewrite Hst0. simpl. rewrite Hx, Hmod0. reflexivity.
Qed.

Lemma RoundTrip_empty_artifact_fails_witness :
  RoundTrip flat_cache (fixed_transport "HTTP/1.1 204 No Content" 204 "")
    (const_clock 5) (@None (Validator unit)) 3 root_req (empty_fs 5) tt
  = (Some (Err (ENotExist "get/x")), empty_fs 5, tt, 1%nat).
Proof.
  refine (RoundTrip_empty_artifact_fails (FS:=MapFs) (VS:=unit) flat_cache
            (fixed_transport "HTTP/1.1 204 No Content" 204 "") (const_clock 5) None 2
            root_req (empty_fs 5) tt "get/x" flat_policy (ENotExist "get/x")
            ("HTTP/1.1 204 No Content" ++ crlf ++ "Content-Type: text/plain" ++ crlfcrlf)
            (empty_fs 5) _ _ _ _ _ _ _).
  - vm_compute. reflexivity.
  - discriminate.
  - reflexivity.
  - reflexivity.
  - vm_compute. reflexivity.
  - eexists. vm_compute. reflexivity.
  - vm_compute. reflexivity.
Defined.

(** A Truncator whose Match holds for the response ends the transformer
    chain: transformAndAppend keeps the (Content-Length-stripped) header
    and an empty body, and no later transformer runs.  When Match does
    not hold it is transparent: the chain behaves as without it. *)
Theorem Truncator_in_chain (id : nat) (prio : Z) (m : string -> Z -> string -> bool)
  (ts : list BodyTransformer) (buf r urlstr : string) (code : Z) (ct : string) (s : bool) :
  (m urlstr code ct = true ->
   transformAndAppend buf r urlstr code ct s (Truncator id prio m :: ts)
   = (Ok (if s then stripContentLengthHeader buf else buf), [Truncator id prio m]))
  /\ (m urlstr code ct = false ->
   transformAndAppend buf r urlstr code ct s (Truncator id prio m :: ts)
   = (fst (transformAndAppend buf r urlstr code ct s ts),
      Truncator id prio m :: snd (transformAndAppend buf r urlstr code ct s ts))).
Proof. exact (truncator_chain id prio m ts buf r urlstr code ct s). Qed.

Lemma Truncator_in_chain_witness :
  transformAndAppend "H" "body" "u" 404 "text/plain" false
    (ErrorTruncator 1 :: [bt_fail 2 50])
  = (Ok "H", [ErrorTruncator 1])
  /\ transformAndAppend "H" "body" "u" 200 "text/plain" false
    (ErrorTruncator 1 :: [bt_pass 2 50])
  = (fst (transformAndAppend "H" "body" "u" 200 "text/plain" false [bt_pass 2 50]),
     ErrorTruncator 1 :: snd (transformAndAppend "H" "body" "u" 200 "text/plain" false [bt_pass 2 50])).
Proof.
  split.
  - exact (proj1 (Truncator_in_chain 1 TransformPriorityFirst
                    (fun _ code _ => negb (code =? 200)%Z) [bt_fail 2 50]
                    "H" "body" "u" 404 "text/plain" false) eq_refl).
  - exact (proj2 (Truncator_in_chain 1 TransformPriorityFirst
                    (fun _ code _ => negb (code =? 200)%Z) [bt_pass 2 50]
                    "H" "body" "u" 200 "text/plain" false) eq_refl).
Defined.

(** With WithStatusCodeTruncator(codes...) first among the body
    transformers, Exec stores a response whose status code is not listed
    as if its body were empty and there were no body transformers, and a
    response whose status code is listed as if the truncator were absent. *)
Theorem StatusCodeTruncator_exec {FS : Type} `{Fs FS} `{Codecs}
  (id : nat) (codes : list Z) (ts : list BodyTransformer)
  (transport : Request -> result HttpRes) (res : HttpRes) (fs : FS) (key : string)
  (p : Policy) (req : Request)
  (Hbt : BodyTransformers p = StatusCodeTruncator id codes :: ts)
  (Htr : transport req = Ok res) :
  (containsInt codes (ResStatus res) = false ->
   exec_payload transport fs key p req
   = exec_payload (fun _ => Ok (without_body res)) fs key (with_body_transformers p []) req)
  /\ (containsInt codes (ResStatus res) = true ->
   exec_payload transport fs key p req
   = exec_payload transport fs key (with_body_transformers p ts) req).
Proof.
  destruct (truncator_exec id TransformPriorityFirst
              (fun _ statusCode _ => negb (containsInt codes statusCode)) ts
              transport res fs key p req Hbt Htr) as [Ht Hf].
  split; intros Hc; [apply Ht | apply Hf]; simpl; rewrite Hc; reflexivity.
Qed.

Lemma StatusCodeTruncator_exec_witness :
  exec_payload (fixed_transport "HTTP/1.1 404 Not Found" 404 "gone") (empty_fs 5) "get/x"
    (with_body_transformers empty_policy [StatusCodeTruncator 1 [200%Z; 304%Z]]) root_req
  = exec_payload (fun _ => Ok (without_body
                     {| ResStatus := 404; ResContentType := "text/plain";
                        Dump := "HTTP/1.1 404 Not Found" ++ crlf ++ "Content-Type: text/plain"
                                ++ crlfcrlf;
                        RawBody := "gone" |}))
      (empty_fs 5) "get/x"
      (with_body_transformers
         (with_body_transformers empty_policy [StatusCodeTruncator 1 [200%Z; 304%Z]]) [])
      root_req.
Proof.
  exact (proj1 (StatusCodeTruncator_exec (FS:=MapFs) 1 [200%Z; 304%Z] []
                  (fixed_transport "HTTP/1.1 404 Not Found" 404 "gone")
                  {| ResStatus := 404; ResContentType := "text/plain";
                     Dump := "HTTP/1.1 404 Not Found" ++ crlf ++ "Content-Type: text/plain"
                             ++ crlfcrlf;
                     RawBody := "gone" |}
                  (empty_fs 5) "get/x"
                  (with_body_transformers empty_policy [StatusCodeTruncator 1 [200%Z; 304%Z]])
                  root_req eq_refl eq_refl) eq_refl).
Defined.

(** With WithErrorTruncator() first among the body transformers, Exec
    stores a response whose status is not 200 as if its body were empty
    and there were no body transformers, and a 200 response as if the
    truncator were absent. *)
Theorem ErrorTruncator_exec {FS : Type} `{Fs FS} `{Codecs}
  (id : nat) (ts : list BodyTransformer)
  (transport : Request -> result HttpRes) (res : HttpRes) (fs : FS) (key : string)
  (p : Policy) (req : Request)
  (Hbt : BodyTransformers p = ErrorTruncator id :: ts)
  (Htr : transport req = Ok res) :
  (ResStatus res <> 200%Z ->
   exec_payload transport fs key p req
   = exec_payload (fun _ => Ok (without_body res)) fs key (with_body_transformers p []) req)
  /\ (ResStatus res = 200%Z ->
   exec_payload transport fs key p req
   = exec_payload transport fs key (with_body_transformers p ts) req).
Proof.
  destruct (truncator_exec id TransformPriorityFirst
              (fun _ code _ => negb (code =? 200)%Z) ts
              transport res fs key p req Hbt Htr) as [Ht Hf].
  split; intros Hc; [apply Ht | apply Hf]; simpl.
  - apply Z.eqb_neq in Hc. rewrite Hc. reflexivity.
  - rewrite Hc. reflexivity.
Qed.

Lemma ErrorTruncator_exec_witness :
  exec_payload (fixed_transport "HTTP/1.1 200 OK" 200 "hi") (empty_fs 5) "get/x"
    (with_body_transformers empty_policy [ErrorTruncator 1; bt_pass 2 50]) root_req
  = exec_payload (fixed_transport "HTTP/1.1 200 OK" 200 "hi") (empty_fs 5) "get/x"
      (with_body_transformers
         (with_body_transformers empty_policy [ErrorTruncator 1; bt_pass 2 50]) [bt_pass 2 50])
      root_req.
Proof.
  exact (proj2 (ErrorTruncator_exec (FS:=MapFs) 1 [bt_pass 2 50]
                  (fixed_transport "HTTP/1.1 200 OK" 200 "hi")
                  {| ResStatus := 200; ResContentType := "text/plain";
                     Dump := "HTTP/1.1 200 OK" ++ crlf ++ "Content-Type: text/plain" ++ crlfcrlf;
                     RawBody := "hi" |}
                  (empty_fs 5) "get/x"
                  (with_body_transformers empty_policy [ErrorTruncator 1; bt_pass 2 50])
                  root_req eq_refl eq_refl) eq_refl).
Defined.

(** PrefixStripper looks at the media type (the content type up to its
    first ";").  When ContentTypes is empty or lists it, a body that
    starts with the prefix comes out without it, and a body that does
    not is an error "missing prefix"; when ContentTypes is non-empty and
    does not list it, the body passes through unchanged. *)
Theorem PrefixStripper_behaviour (id : nat) (prio : Z) (cts : list string)
  (prefix urlstr : string) (code : Z) (ct r : string) :
  ((cts = [] \/ contains cts (media_type ct) = true) ->
     (forall rest, r = (prefix ++ rest)%string ->
        BodyTransform (PrefixStripper id prio cts prefix) urlstr code ct r = Ok (rest, true))
     /\ (String.prefix prefix r = false ->
        BodyTransform (PrefixStripper id prio cts prefix) urlstr code ct r
        = Err (EMissingPrefix prefix)))
  /\ (cts <> [] -> contains cts (media_type ct) = false ->
     BodyTransform (PrefixStripper id prio cts prefix) urlstr code ct r = Ok (r, true)).
Proof.
  cbn [BodyTransform PrefixStripper]. split.
  - intros Hct.
    assert (Hsel : negb (length cts =? 0)%nat && negb (contains cts (media_type ct)) = false).
    { destruct Hct as [-> | Hc]; [reflexivity | rewrite Hc; apply andb_false_r]. }
    rewrite Hsel. split.
    + intros rest ->. rewrite prefix_app, drop_app. reflexivity.
    + intros Hp. rewrite Hp. reflexivity.
  - intros Hne Hc. rewrite Hc.
    destruct cts; [contradiction | reflexivity].
Qed.

Lemma PrefixStripper_behaviour_witness :
  BodyTransform (WithPrefixStripper 1 xssi_prefix ["application/json"]) "u" 200
    "application/json; charset=utf-8" (xssi_prefix ++ "[1]") = Ok ("[1]", true)
  /\ BodyTransform (WithPrefixStripper 1 xssi_prefix ["application/json"]) "u" 200
    "application/json" "[1]" = Err (EMissingPrefix xssi_prefix)
  /\ BodyTransform (WithPrefixStripper 1 xssi_prefix ["application/json"]) "u" 200
    "text/html" "[1]" = Ok ("[1]", true).
Proof.
  split; [| split].
  - exact (proj1 (proj1 (PrefixStripper_behaviour 1 TransformPriorityModify ["application/json"]
             xssi_prefix "u" 200 "application/json; charset=utf-8" (xssi_prefix ++ "[1]"))
             (or_intror eq_refl)) "[1]" eq_refl).
  - exact (proj2 (proj1 (PrefixStripper_behaviour 1 TransformPriorityModify ["application/json"]
             xssi_prefix "u" 200 "application/json" "[1]")
             (or_intror eq_refl)) eq_refl).
  - exact (proj2 (PrefixStripper_behaviour 1 TransformPriorityModify ["application/json"]
             xssi_prefix "u" 200 "text/html" "[1]") ltac:(discriminate) eq_refl).
Defined.

(** A response of a listed media type whose body lacks the prefix of a
    PrefixStripper placed first is never stored: for a key not in the
    store, RoundTrip calls Exec once and returns the "missing prefix"
    error with the store unchanged. *)
Theorem PrefixStripper_missing_prefix_not_stored {FS : Type} `{Fs FS} `{Codecs} {VS : Type}
  (c : Cache) (transport : Request -> result HttpRes) (clock : nat -> Z)
  (v : option (Validator VS)) (fuel : nat) (req : Request) (fs : FS) (vs : VS)
  (key : string) (p : Policy) (e : error) (res : HttpRes)
  (id : nat) (prio : Z) (cts : list string) (prefix : string) (ts : list BodyTransformer)
  (Hm : CacheMatch c req = Ok (key, p)) (Hk : key <> "")
  (Habs : fs_stat fs key = Err e) (Hne : is_not_exist e = true)
  (Htr : transport req = Ok res)
  (Hbt : BodyTransformers p = PrefixStripper id prio cts prefix :: ts)
  (Hct : cts = [] \/ contains cts (media_type (ResContentType res)) = true)
  (Hpre : String.prefix prefix (RawBody res) = false) :
  RoundTrip c transport clock v (S fuel) req fs vs
  = (Some (Err (EMissingPrefix prefix)), fs, vs, 1%nat).
Proof.
  apply (Mod_absent_Exec_error c transport clock v fuel req fs vs key p e _ Hm Hk Habs Hne).
  unfold exec_payload. rewrite Htr, Hbt.
  unfold transformAndAppend. cbn [run_transformers BodyTransform PrefixStripper].
  assert (Hsel : negb (length cts =? 0)%nat
                 && negb (contains cts (media_type (ResContentType res))) = false).
  { destruct Hct as [-> | Hc]; [reflexivity | rewrite Hc; apply andb_false_r]. }
  rewrite Hsel, Hpre. reflexivity.
Qed.

Lemma PrefixStripper_missing_prefix_not_stored_witness :
  RoundTrip xssi_cache (json_transport 200 "[1]") (const_clock 5)
    (@None (Validator unit)) 1 root_req (empty_fs 5) tt
  = (Some (Err (EMissingPrefix xssi_prefix)), empty_fs 5, tt, 1%nat).
Proof.
  refine (PrefixStripper_missing_prefix_not_stored (FS:=MapFs) (VS:=unit) xssi_cache
            (json_transport 200 "[1]") (const_clock 5) None 0 root_req (empty_fs 5) tt
            "get/x" xssi_policy (ENotExist "get/x")
            {| ResStatus := 200; ResContentType := "application/json; charset=utf-8";
               Dump := "HTTP/1.1 200 OK" ++ crlf
                       ++ "Content-Type: application/json; charset=utf-8" ++ crlfcrlf;
               RawBody := "[1]" |}
            1 TransformPriorityModify ["application/json"] xssi_prefix [] _ _ _ _ _ _ _ _).
  - vm_compute. reflexivity.
  - discriminate.
  - reflexivity.
  - reflexivity.
  - reflexivity.
  - reflexivity.
  - right. vm_compute. reflexivity.
  - vm_compute. reflexivity.
Defined.

(** The query part WithQueryPrefix adds to a key is empty, or the prefix
    followed by a non-empty string made only of ASCII letters, digits and
    the bytes - _ . ~ %: the escaped query never brings a "/" (a path
    separator in the key), a space, "&" or "=" into the key. *)
Theorem WithQueryPrefix_escaped (prefix : string) (fields : list string) (v : Values) :
  WithQueryPrefix prefix fields v = EmptyString
  \/ exists s, WithQueryPrefix prefix fields v = (prefix ++ s)%string
               /\ s <> EmptyString /\ all_chars query_safe s = true.
Proof.
  unfold WithQueryPrefix. cbv zeta.
  match goal with |- context [Encode ?w] =>
    pose proof (Encode_no_space w) as He; set (e := Encode w) in * end.
  destruct (String.eqb (QueryEscape e) "") eqn:E; cbn [negb]; [left; reflexivity | right].
  exists (QueryEscape e). split; [reflexivity | split].
  - intros H. rewrite H in E. discriminate.
  - apply QueryEscape_safe. exact He.
Qed.

(** With url.Values a map (each key once), the query encoder of
    WithQueryPrefix gives the empty string exactly when no parameter it
    keeps (all, or those named in fields) has a value. *)
Theorem WithQueryPrefix_empty_iff (prefix : string) (fields : list string) (v : Values)
  (Hnd : NoDup (map fst v)) :
  WithQueryPrefix prefix fields v = EmptyString
  <-> (forall k vs, In (k, vs) v -> (fields = [] \/ contains fields k = true) -> vs = []).
Proof.
  unfold WithQueryPrefix. cbv zeta.
  set (w := if (0 <? length fields)%nat
            then filter (fun kv => contains fields (fst kv)) v else v).
  assert (Hkept : forall k vs, In (k, vs) w
                  <-> In (k, vs) v /\ (fields = [] \/ contains fields k = true)).
  { intros k vs. unfold w. destruct fields as [|f fs]; cbn [length Nat.ltb Nat.leb].
    - split; [intros H; split; [exact H | left; reflexivity] | intros [H _]; exact H].
    - rewrite filter_In. cbn [fst]. split; intros [H1 H2]; split; auto.
      destruct H2 as [H2 | H2]; [discriminate | exact H2]. }
  assert (Hnd' : NoDup (map fst w))
    by (unfold w; destruct (0 <? length fields)%nat; [apply NoDup_map_filter |]; exact Hnd).
  assert (Hiff : (forall k vs, In (k, vs) w -> vs = [])
                 <-> (forall k vs, In (k, vs) v -> (fields = [] \/ contains fields k = true)
                                   -> vs = [])).
  { split.
    - intros H k vs Hin Hf. apply (H k vs). apply Hkept. auto.
    - intros H k vs Hin. apply Hkept in Hin as [Hin Hf]. exact (H k vs Hin Hf). }
  rewrite <- Hiff, <- (Encode_empty w Hnd'), <- (QueryEscape_empty (Encode w)).
  destruct (String.eqb (QueryEscape (Encode w)) "") eqn:E; cbn [negb].
  - apply String.eqb_eq in E. rewrite E. tauto.
  - apply String.eqb_neq in E. split; [| intros H; exfalso; exact (E H)].
    intros H. destruct prefix as [|c prefix]; [exact H | discriminate H].
Qed.

Lemma WithQueryPrefix_empty_iff_witness :
  WithQueryPrefix "?" ["a"] [("a", []); ("b", ["1"])] = EmptyString
  <-> (forall k vs, In (k, vs) [("a", []); ("b", ["1"])] ->
       (["a"] = [] \/ contains ["a"] k = true) -> vs = []).
Proof.
  apply (WithQueryPrefix_empty_iff "?" ["a"] [("a", []); ("b", ["1"])]).
  constructor; [intros [H | []]; discriminate H | constructor; [intros [] | constructor]].
Defined.

(** When WithQueryPrefix names fields, a query parameter not among them
    does not change the encoded query (wherever it stands). *)
Theorem WithQueryPrefix_ignores_unlisted (prefix : string) (fields : list string)
  (v1 v2 : Values) (k : string) (vs : list string)
  (Hf : fields <> []) (Hk : contains fields k = false) :
  WithQueryPrefix prefix fields (v1 ++ (k, vs) :: v2)%list
  = WithQueryPrefix prefix fields (v1 ++ v2)%list.
Proof.
  unfold WithQueryPrefix. cbv zeta.
  destruct fields as [|f fs]; [contradiction |].
  change ((0 <? length (f :: fs))%nat) with true. cbv iota.
  rewrite !filter_app. cbn [filter fst]. rewrite Hk. reflexivity.
Qed.

Lemma WithQueryPrefix_ignores_unlisted_witness :
  WithQueryPrefix "?" ["a"] ([("a", ["1"])] ++ ("utm_source", ["x"]) :: [])%list
  = WithQueryPrefix "?" ["a"] ([("a", ["1"])] ++ [])%list.
Proof.
  apply WithQueryPrefix_ignores_unlisted; [discriminate | reflexivity].
Defined.

(** With url.Values a map (each key once), the encoded query does not
    depend on the order of the parameters: Values.Encode sorts the keys. *)
Theorem WithQueryPrefix_order_independent (prefix : string) (fields : list string)
  (v w : Values) (Hnd : NoDup (map fst v)) (Hp : Permutation v w) :
  WithQueryPrefix prefix fields v = WithQueryPrefix prefix fields w.
Proof.
  unfold WithQueryPrefix. cbv zeta.
  destruct (0 <? length fields)%nat.
  - rewrite (Encode_perm (filter (fun kv => contains fields (fst kv)) v)
                         (filter (fun kv => contains fields (fst kv)) w)).
    + reflexivity.
    + apply NoDup_map_filter. exact Hnd.
    + apply Permutation_filter_bool. exact Hp.
  - rewrite (Encode_perm v w Hnd Hp). reflexivity.
Qed.

Lemma WithQueryPrefix_order_independent_witness :
  WithQueryPrefix "?" [] [("b", ["2"]); ("a", ["1"])]
  = WithQueryPrefix "?" [] [("a", ["1"]); ("b", ["2"])].
Proof.
  apply WithQueryPrefix_order_independent.
  - constructor; [intros [H | []]; discriminate H | constructor; [intros [] | constructor]].
  - apply perm_swap.
Defined.

(** Staleness persists as time passes: if Stale reports an entry stale at
    time [now], it reports it stale, with the same modification time, at
    every later time (the store unchanged). *)
Theorem Stale_stays_stale {FS : Type} `{Fs FS} (fs : FS) (now now' : Z)
  (ctx : option Z) (key : string) (ttl mtime : Z)
  (Hle : (now <= now')%Z)
  (Hst : Stale fs now ctx key ttl = Ok (true, mtime)) :
  Stale fs now' ctx key ttl = Ok (true, mtime).
Proof.
  unfold Stale in *. destruct (Mod fs key) as [m|e].
  - injection Hst as Hb Hm. subst mtime.
    apply andb_true_iff in Hb as [Ht Hlt]. apply Z.ltb_lt in Hlt.
    rewrite Ht. simpl. f_equal. f_equal. apply Z.ltb_lt. lia.
  - exact Hst.
Qed.

Lemma Stale_stays_stale_witness :
  Stale fs_hi 30 None "get/x" 10 = Ok (true, 5%Z).
Proof.
  apply (Stale_stays_stale fs_hi 20 30 None "get/x" 10 5); [lia | reflexivity].
Defined.

(** A gzip or zlib marshaler whose level NewWriterLevel refuses (outside
    -2 .. 9) makes every fetch fail: for a key not in the store and a
    policy without body transformers, RoundTrip calls Exec once and
    returns the compression-level error, and nothing is stored. *)
Theorem RoundTrip_bad_compression_level {FS : Type} `{Fs FS} `{Codecs} {VS : Type}
  (c : Cache) (transport : Request -> result HttpRes) (clock : nat -> Z)
  (v : option (Validator VS)) (fuel : nat) (req : Request) (fs : FS) (vs : VS)
  (key : string) (p : Policy) (e : error) (res : HttpRes) (l : Z)
  (Hm : CacheMatch c req = Ok (key, p)) (Hk : key <> "")
  (Habs : fs_stat fs key = Err e) (Hne : is_not_exist e = true)
  (Htr : transport req = Ok res)
  (Hbt : BodyTransformers p = [])
  (Hmu : MarshalUnmarshalerOf p = Some (GzipMarshalUnmarshaler l)
         \/ exists d, MarshalUnmarshalerOf p = Some (ZlibMarshalUnmarshaler l d))
  (Hl : level_ok l = false) :
  RoundTrip c transport clock v (S fuel) req fs vs
  = (Some (Err (ECompressLevel l)), fs, vs, 1%nat).
Proof.
  apply (Mod_absent_Exec_error c transport clock v fuel req fs vs key p e _ Hm Hk Habs Hne).
  unfold exec_payload. rewrite Htr, Hbt.
  cbn [transformAndAppend run_transformers fst].
  destruct (negb (String.eqb (Method req) "HEAD")); cbn [fst];
    destruct Hmu as [-> | [d ->]]; cbn [Marshal]; rewrite Hl; reflexivity.
Qed.

Lemma RoundTrip_bad_compression_level_witness :
  RoundTrip {| matchers := []; matcher := {| MethodMatch := String.eqb "GET";
       HostFind := fun h => Some [h]; hostSubexps := [""];
       PathFind := fun p => Some [p]; pathSubexps := [""];
       KeyTemplate := "{{method}}/x"; indexPath := "?index";
       longPathHandler := None; queryEncoder := None;
       MatcherPolicy := {| TTL := 0; HeaderTransformers := []; BodyTransformers := [];
                           MarshalUnmarshalerOf := Some (GzipMarshalUnmarshaler 12) |} |};
     noDefault := false |}
    (fixed_transport "HTTP/1.1 200 OK" 200 "hi") (const_clock 5)
    (@None (Validator unit)) 1 root_req (empty_fs 5) tt
  = (Some (Err (ECompressLevel 12)), empty_fs 5, tt, 1%nat).
Proof.
  refine (RoundTrip_bad_compression_level (FS:=MapFs) (VS:=unit) _
            (fixed_transport "HTTP/1.1 200 OK" 200 "hi") (const_clock 5) None 0
            root_req (empty_fs 5) tt "get/x"
            {| TTL := 0; HeaderTransformers := []; BodyTransformers := [];
               MarshalUnmarshalerOf := Some (GzipMarshalUnmarshaler 12) |}
            (ENotExist "get/x")
            {| ResStatus := 200; ResContentType := "text/plain";
               Dump := "HTTP/1.1 200 OK" ++ crlf ++ "Content-Type: text/plain" ++ crlfcrlf;
               RawBody := "hi" |} 12 _ _ _ _ _ _ _ _).
  - vm_compute. reflexivity.
  - discriminate.
  - reflexivity.
  - reflexivity.
  - reflexivity.
  - reflexivity.
  - left. reflexivity.
  - reflexivity.
Defined.
